(** * woke: rule-set composition and the ignore-matching subsystem

    A shallow embedding of [pkg/config] (Config, ConfigureRules, RemoveRule,
    GetSuccessExitMessage) and [pkg/ignore] (getDomainFromWorkingDir,
    GetRootGitDir, readIgnoreFile, readPatterns, Ignore.Match), followed by
    the properties proved about them.

    Conventions.  Go strings are byte strings and are modelled by [string];
    Go [int] indices are modelled by [Z].  A call that yields either a value
    or an error is a sum ([inl] the value, [inr] the error); a function of
    the program that returns a value together with an error returns a pair
    whose second component is an [option] error ([None] is the nil error).
    A run-time panic is the [None] of an [option] result.  Loops that the
    source does not bound take a budget of rounds.  The target is a Unix
    build, so [os.PathSeparator] is the slash. *)

From Stdlib Require Import List String Ascii ZArith Lia Bool Arith Sorted.
Import ListNotations.
Open Scope string_scope.
Open Scope list_scope.

(* ================================================================== *)
(** * Part I.  The program *)
(* ================================================================== *)

(** ** Package [rule] (consumed through its interface) *)

Module rule.

(** Modelled from the spec: package [rule] is not among the sources.  A rule
    is identified by its name, carries category tags in its options, and has
    the two pieces of state that finalisation sets: the compiled matching
    expression and the note-inclusion flag. *)
Record Options : Type := mkOptions {
  IncludeNote : option bool;
  Categories : list string
}.

(** Modelled from the spec: the rule itself.  [re] is the compiled
    matching expression, absent until [SetRegexp] runs. *)
Record Rule : Type := mkRule {
  Name : string;
  Terms : list string;
  Opts : Options;
  re : option (list string)
}.

(** Modelled from the spec: [ContainsCategory(name)] is simple membership
    of [name] among the rule's category tags. *)
Definition ContainsCategory (r : Rule) (category : string) : bool :=
  existsb (fun c => String.eqb c category) (Categories (Opts r)).

(** Modelled from the spec: [SetRegexp()] compiles the matching expression
    of the rule; the compiled expression is represented by the terms it was
    built from. *)
Definition SetRegexp (r : Rule) : Rule :=
  mkRule (Name r) (Terms r) (Opts r) (Some (Terms r)).

(** Modelled from the spec: [SetIncludeNote(b)] applies the note-inclusion
    flag to the rule's options. *)
Definition SetIncludeNote (includeNote : bool) (r : Rule) : Rule :=
  mkRule (Name r) (Terms r)
         (mkOptions (Some includeNote) (Categories (Opts r))) (re r).

End rule.

(** ** Package [config] *)

Module config.
Import rule.

Record Config : Type := mkConfig {
  Rules : list Rule;
  IgnoreFiles : list string;
  SuccessExitMessage : option string;
  IncludeNote : bool;
  ExcludeCategories : list string
}.

(** Assignment to the field [c.Rules]. *)
Definition setRules (c : Config) (rs : list Rule) : Config :=
  mkConfig rs (IgnoreFiles c) (SuccessExitMessage c) (IncludeNote c)
           (ExcludeCategories c).

Definition GetSuccessExitMessage (c : Config) : string :=
  match SuccessExitMessage c with
  | None => "No findings found."
  | Some msg => msg
  end.

Definition inExistingRules (c : Config) (r : Rule) : bool :=
  existsb (fun n => String.eqb (Name n) (Name r)) (Rules c).

(** [c.Rules[i]] for a Go [int] index: [None] is the index-out-of-range
    panic. *)
Definition ruleAt (c : Config) (i : Z) : option Rule :=
  if (i <? 0)%Z then None else nth_error (Rules c) (Z.to_nat i).

(** Remove a rule at index [i] while maintaining order. *)
Definition RemoveRule (c : Config) (i : Z) : Config :=
  if ((i >=? Z.of_nat (List.length (Rules c))) || (i <? 0))%Z then c
  else setRules c (firstn (Z.to_nat i) (Rules c)
                   ++ skipn (Z.to_nat (i + 1)) (Rules c)).

Section ConfigureRules.

(** The package variable [rule.DefaultRules]; its table is not among the
    sources, so it is a parameter. *)
Variable DefaultRules : list Rule.

(** First loop of [ConfigureRules]: append the defaults whose name is not
    taken yet. *)
Definition appendDefaults (c : Config) : Config :=
  fold_left
    (fun c r =>
       if negb (inExistingRules c r) then setRules c (Rules c ++ [r])
       else c)
    DefaultRules c.

(** The loop labelled [RuleLoop].  [i] is the index of the head of
    [todo]; [done] holds the rules already visited (the slice holds
    pointers, so finalising a rule rewrites its entry); the indices of the
    rules with an excluded category are collected in [excludedIndices]. *)
Fixpoint RuleLoop (c : Config) (i : Z) (todo done : list Rule)
         (excludedIndices : list Z) : list Rule * list Z :=
  match todo with
  | [] => (done, excludedIndices)
  | r :: rest =>
      if existsb (fun ex => ContainsCategory r ex) (ExcludeCategories c)
      then RuleLoop c (i + 1) rest (done ++ [r]) (excludedIndices ++ [i])
      else RuleLoop c (i + 1) rest
             (done ++ [SetIncludeNote (IncludeNote c) (SetRegexp r)])
             excludedIndices
  end.

(** Last loop: for every collected index, read [c.Rules[exIdx]] for the
    log line (a panic when out of range), then call [RemoveRule]. *)
Fixpoint removeExcluded (c : Config) (excludedIndices : list Z)
  : option Config :=
  match excludedIndices with
  | [] => Some c
  | exIdx :: rest =>
      match ruleAt c exIdx with
      | None => None
      | Some _ => removeExcluded (RemoveRule c exIdx) rest
      end
  end.

Definition ConfigureRules (c : Config) : option Config :=
  let c1 := appendDefaults c in
  let '(rs, excludedIndices) := RuleLoop c1 0 (Rules c1) [] [] in
  removeExcluded (setRules c1 rs) excludedIndices.

End ConfigureRules.

Section NewConfig.

(** Errors of the file and path functions; their values are outside the
    model. *)
Variable error : Type.

Variable DefaultRules : list Rule.

(** [ioutil.ReadFile] and [yaml.Unmarshal]; the latter fills the config it
    is given and reports whether the document was well formed. *)
Variable ioutil_ReadFile : string -> string + error.
Variable yaml_Unmarshal : string -> Config -> Config * option error.

(** [filepath.IsAbs], [os.Getwd] and [filepath.Rel]. *)
Variable filepath_IsAbs : string -> bool.
Variable os_Getwd : string * option error.
Variable filepath_Rel : string -> string -> string + error.

(** The zero value of [Config]. *)
Definition zeroConfig : Config := mkConfig [] [] None false [].

(** [loadConfig] reads the file and unmarshals it into a zero config.
    The config returned beside the error of [yaml.Unmarshal] is the one
    that call has filled. *)
Definition loadConfig (filename : string) : Config * option error :=
  match ioutil_ReadFile filename with
  | inr err => (zeroConfig, Some err)
  | inl yamlFile => yaml_Unmarshal yamlFile zeroConfig
  end.

(** The path of the config file relative to the current directory, when
    the path is absolute and such a relative path exists. *)
Definition relative (filename : string) : string :=
  if filepath_IsAbs filename then
    let cwd := fst os_Getwd in
    match filepath_Rel cwd filename with
    | inl relfilename => relfilename
    | inr _ => filename
    end
  else filename.

(** [NewConfig] returns a new Config.  The outer [None] is the panic of
    [ConfigureRules]. *)
Definition NewConfig (filename : string) : option (Config + error) :=
  let loaded :=
    if (0 <? String.length filename)%nat then
      match loadConfig filename with
      | (_, Some err) => inr err
      | (c, None) =>
          inl (mkConfig (Rules c) (IgnoreFiles c ++ [relative filename])
                        (SuccessExitMessage c) (IncludeNote c)
                        (ExcludeCategories c))
      end
    else inl zeroConfig in
  match loaded with
  | inr err => Some (inr err)
  | inl c =>
      match ConfigureRules DefaultRules c with
      | None => None
      | Some c' => Some (inl c')
      end
  end.

End NewConfig.

End config.

(** ** The functions of Go's [strings] package that the program calls *)

Module strings.

(** [s[n:]] and [s[:n]] on byte strings. *)
Fixpoint drop (n : nat) (s : string) : string :=
  match n, s with
  | O, _ => s
  | S _, EmptyString => EmptyString
  | S k, String _ s' => drop k s'
  end.

Fixpoint take (n : nat) (s : string) : string :=
  match n, s with
  | O, _ => EmptyString
  | S _, EmptyString => EmptyString
  | S k, String c s' => String c (take k s')
  end.

Fixpoint HasPrefix (s prefix : string) {struct prefix} : bool :=
  match prefix, s with
  | EmptyString, _ => true
  | String _ _, EmptyString => false
  | String c p', String d s' => Ascii.eqb d c && HasPrefix s' p'
  end.

Definition HasSuffix (s suffix : string) : bool :=
  (String.length suffix <=? String.length s)%nat
  && String.eqb (drop (String.length s - String.length suffix) s) suffix.

(** [Index]: the byte offset of the first occurrence of [substr] in [s];
    [None] stands for the result [-1]. *)
Fixpoint Index (s substr : string) : option nat :=
  if HasPrefix s substr then Some O
  else match s with
       | EmptyString => None
       | String _ s' => option_map S (Index s' substr)
       end.

(** The counting loop of [Count] for a non-empty [substr]: every round
    consumes at least one byte, so [length s] rounds are enough. *)
Fixpoint countLoop (fuel : nat) (s substr : string) : nat :=
  match fuel with
  | O => O
  | S k =>
      match Index s substr with
      | None => O
      | Some i => S (countLoop k (drop (i + String.length substr) s) substr)
      end
  end.

Definition Count (s substr : string) : Z :=
  Z.of_nat (countLoop (String.length s) s substr).

(** The cutting loop of [genSplit]: at most [cuts] cuts at the leftmost
    occurrence of [sep]; the rest of the string is the last piece. *)
Fixpoint splitLoop (cuts : nat) (s sep : string) : list string :=
  match cuts with
  | O => [s]
  | S k =>
      match Index s sep with
      | None => [s]
      | Some m => take m s :: splitLoop k (drop (m + String.length sep) s) sep
      end
  end.

(** [SplitN(s, sep, n)].  The rune-wise split that Go performs for an empty
    separator is outside this model (the program always passes a separator
    that ends with the path separator) and leaves [s] in one piece. *)
Definition SplitN (s sep : string) (n : Z) : list string :=
  if (n =? 0)%Z then []
  else if String.eqb sep "" then [s]
  else
    let n := if (n <? 0)%Z then (Count s sep + 1)%Z else n in
    let n := if (n >? Z.of_nat (String.length s) + 1)%Z
             then (Z.of_nat (String.length s) + 1)%Z else n in
    splitLoop (Z.to_nat (n - 1)) s sep.

Definition Split (s sep : string) : list string := SplitN s sep (-1).

End strings.

(** ** Package [util] *)

Module util.

(** Modelled from the spec: [util.FilterEmptyStrings] is not among the
    sources; it discards the empty strings of a sequence and keeps the
    others in order. *)
Definition FilterEmptyStrings (s : list string) : list string :=
  filter (fun str => negb (String.eqb str "")) s.

End util.

(** ** The ignore-pattern language (go-git's [gitignore] package) *)

Module gitignore.
Import strings.

(** Modelled from the spec: the verdict of one pattern on a path: no
    match, ignore the path, or re-include it (negation). *)
Inductive MatchResult : Type := NoMatch | Exclude | Include.

(** Modelled from the spec: the pattern compiler and the matcher belong to
    the go-git [gitignore] package, which is not among the sources.  A
    pattern has a domain (the directory it applies under), a negation flag
    derived from a leading [!], a directory-only flag derived from a
    trailing slash, a match kind (a path glob when the text contains a
    slash, a file-name glob otherwise) and the slash-separated segments of
    its text. *)
Record pattern : Type := mkPattern {
  domain : list string;
  segments : list string;
  inclusion : bool;
  dirOnly : bool;
  isGlob : bool
}.

(** Modelled from the spec: the interface [gitignore.Pattern]; the
    compiled patterns are its only implementation here. *)
Definition Pattern : Type := pattern.

(** Modelled from the spec: glob match of one path segment; a star stands
    for any run of bytes, a question mark for one byte. *)
Fixpoint globSegment (pat name : string) : bool :=
  match pat with
  | EmptyString => String.eqb name ""
  | String c pat' =>
      if Ascii.eqb c "*" then
        (fix star (n : string) : bool :=
           globSegment pat' n
           || match n with
              | EmptyString => false
              | String _ n' => star n'
              end) name
      else
        match name with
        | EmptyString => false
        | String d name' =>
            (Ascii.eqb c "?" || Ascii.eqb c d) && globSegment pat' name'
        end
  end.

(** Modelled from the spec: [ParsePattern(p, domain)] compiles one
    ignore-file line against a domain.  The [domain] field of the result
    is the value of the domain at the time of the call.  A caller that
    hands over a slice and later appends into the same backing array may
    change what the pattern object holds afterwards; that is outside this
    model, and no statement about the patterns of several directories
    reads their [domain] fields. *)
Definition ParsePattern (p : string) (dom : list string) : Pattern :=
  let incl := HasPrefix p "!" in
  let p := if incl then drop 1 p else p in
  let dir := HasSuffix p "/" in
  let p := if dir then take (String.length p - 1) p else p in
  let glob := match Index p "/" with Some _ => true | None => false end in
  mkPattern dom (Split p "/") incl dir glob.

(** Modelled from the spec: a file-name glob matches when some segment of
    the path matches it. *)
Definition simpleNameMatch (p : pattern) (path : list string) : bool :=
  existsb (globSegment (hd "" (segments p))) path.

(** Modelled from the spec: after a double star, skip path segments up to
    and including the first one that matches [pat]. *)
Fixpoint traverse (pat : string) (path : list string)
  : bool * list string :=
  match path with
  | [] => (false, [])
  | e :: rest => if globSegment pat e then (true, rest) else traverse pat rest
  end.

(** Modelled from the spec: a path glob is matched segment by segment; a
    double-star segment stands for zero or more directories.  [None] is
    the immediate answer "no match". *)
Fixpoint globLoop (pats path : list string) (matched canTraverse : bool)
  : option (bool * list string) :=
  match pats with
  | [] => Some (matched, path)
  | pat :: rest =>
      if String.eqb pat "" then globLoop rest path matched false
      else if String.eqb pat "**" then
        match rest with
        | [] => Some (matched, path)
        | _ => globLoop rest path matched true
        end
      else
        match Index pat "**" with
        | Some _ => None
        | None =>
            match path with
            | [] => None
            | e :: path' =>
                if canTraverse then
                  let '(m, path'') := traverse pat path in
                  globLoop rest path'' m false
                else if globSegment pat e then globLoop rest path' true false
                else None
            end
        end
  end.

(** Modelled from the spec: the verdict of a path glob. *)
Definition globMatch (p : pattern) (path : list string) : bool :=
  match globLoop (segments p) path false false with
  | None => false
  | Some (matched, _) => matched
  end.

(** Modelled from the spec: a pattern applies under its domain.
    [underDomain dom path] is the rest of [path] when [path] is strictly
    longer than [dom] and starts with it. *)
Fixpoint underDomain (dom path : list string) : option (list string) :=
  match dom, path with
  | [], [] => None
  | [], _ :: _ => Some path
  | _ :: _, [] => None
  | d :: dom', e :: path' =>
      if String.eqb e d then underDomain dom' path' else None
  end.

(** Modelled from the spec: the verdict of one pattern on a path.  A
    directory-only pattern matches only when [isDir] is true. *)
Definition patternMatch (p : pattern) (path : list string) (isDir : bool)
  : MatchResult :=
  match underDomain (domain p) path with
  | None => NoMatch
  | Some path =>
      if dirOnly p && negb isDir then NoMatch
      else if (if isGlob p then globMatch p path
               else simpleNameMatch p path)
      then (if inclusion p then Include else Exclude)
      else NoMatch
  end.

(** The interface [gitignore.Matcher], by the method the program calls. *)
Record Matcher : Type := mkMatcher {
  Match : list string -> bool -> bool
}.

(** Modelled from the spec: the scan of the matcher, from the pattern of
    highest priority down; [ps] is in that order. *)
Fixpoint firstVerdict (ps : list Pattern) (path : list string) (isDir : bool)
  : bool :=
  match ps with
  | [] => false
  | p :: rest =>
      match patternMatch p path isDir with
      | NoMatch => firstVerdict rest path isDir
      | Exclude => true
      | Include => false
      end
  end.

(** Modelled from the spec: [NewMatcher(ps)] holds the patterns in
    ascending order of priority; the last pattern that matches decides, and
    a negation pattern decides "not ignored". *)
Definition NewMatcher (ps : list Pattern) : Matcher :=
  mkMatcher (fun path isDir => firstVerdict (rev ps) path isDir).

End gitignore.

(** ** Package [ignore] *)

Module ignore.
Import strings util gitignore.

(** [string(os.PathSeparator)] on the Unix target. *)
Definition PathSeparator : string := "/".

Definition getDomainFromWorkingDir (workingDir gitRoot : string)
  : list string :=
  let gitRoot :=
    if negb (HasSuffix gitRoot PathSeparator)
    then (gitRoot ++ PathSeparator)%string
    else gitRoot in
  let res := SplitN workingDir gitRoot 2 in
  if (1 <? Z.of_nat (List.length res))%Z
  then FilterEmptyStrings (Split (nth 1 res "") PathSeparator)
  else [].

(** Go [error] values: a message, and whether [errors.Is(err, os.ErrNotExist)]
    holds of the value. *)
Record error : Type := mkError {
  Error : string;
  IsNotExist : bool
}.

(** [os.FileInfo], by the two methods the program calls. *)
Record FileInfo : Type := mkFileInfo {
  Name : string;
  IsDir : bool
}.

(** An opened file is modelled by the sequence of lines that
    [bufio.Scanner] yields for it. *)
Definition File : Type := list string.

(** The interface [billy.Filesystem], by the methods the program calls. *)
Record Filesystem : Type := mkFilesystem {
  Open : string -> File + error;
  ReadDir : string -> list FileInfo + error;
  Join : list string -> string;
  Root : string
}.

Definition commentPrefix : string := "#".
Definition gitDir : string := ".git".

Definition defaultIgnoreFiles : list string :=
  [".gitignore"; ".ignore"; ".wokeignore"; ".git/info/exclude"].

(** *** Logging *)

Inductive Level : Type := DebugLevel | WarnLevel.

(** One event of the global logger: level, the [Err] field, the [file]
    field and the message. *)
Record LogEvent : Type := mkLogEvent {
  level : Level;
  errField : option error;
  fileField : string;
  message : string
}.

(** *** Computations that log and may run out of fuel

    [None] means that the recursion budget was used up before the call
    returned; otherwise the value comes with the events logged on the
    way. *)
Definition M (A : Type) : Type := option (A * list LogEvent).

Definition ret {A : Type} (a : A) : M A := Some (a, []).

Definition emit (ev : LogEvent) : M unit := Some (tt, [ev]).

Definition bind {A B : Type} (m : M A) (k : A -> M B) : M B :=
  match m with
  | None => None
  | Some (a, l1) =>
      match k a with
      | None => None
      | Some (b, l2) => Some (b, l1 ++ l2)
      end
  end.

Notation "x <- m ;; k" := (bind m (fun x => k))
  (at level 61, m at next level, right associativity).
Notation "' pat <- m ;; k" := (bind m (fun x => match x with pat => k end))
  (at level 61, pat pattern, m at next level, right associativity).

Section Collector.

(** [strings.TrimSpace]; its table of Unicode white space is outside the
    model. *)
Variable TrimSpace : string -> string.

Variable fs : Filesystem.

(** The scanner loop of [readIgnoreFile]. *)
Fixpoint scanLoop (path : list string) (f : File) (ps : list Pattern)
  : list Pattern :=
  match f with
  | [] => ps
  | s :: rest =>
      if negb (HasPrefix s commentPrefix)
         && (0 <? String.length (TrimSpace s))%nat
      then scanLoop path rest (ps ++ [ParsePattern s path])
      else scanLoop path rest ps
  end.

(** [readIgnoreFile] reads a specific git ignore file. *)
Definition readIgnoreFile (path : list string) (ignoreFile : string)
  : M (list Pattern * option error) :=
  match Open fs (Join fs (path ++ [ignoreFile])) with
  | inr err =>
      let '(lvl, err) :=
        if IsNotExist err then (DebugLevel, None)
        else (WarnLevel, Some err) in
      _ <- emit (mkLogEvent lvl err (Join fs (path ++ [ignoreFile]))
                            "skipping ignorefile") ;;
      ret ([], err)
  | inl f => ret (scanLoop path f [], None)
  end.

(** First loop of [readPatterns], over the ignore file names. *)
Fixpoint ignoreFilesLoop (path : list string) (filenames : list string)
         (ps : list Pattern) : M (list Pattern * option error) :=
  match filenames with
  | [] => ret (ps, None)
  | filename :: rest =>
      '(subps, err) <- readIgnoreFile path filename ;;
      match err with
      | Some e => ret (ps, Some e)
      | None =>
          ignoreFilesLoop path rest
            (if (0 <? List.length subps)%nat then ps ++ subps else ps)
      end
  end.

(** Second loop of [readPatterns], over the directory listing; [recur]
    is the recursive call. *)
Fixpoint subdirsLoop (recur : list string -> M (list Pattern * option error))
         (path : list string) (fis : list FileInfo) (ps : list Pattern)
  : M (list Pattern * option error) :=
  match fis with
  | [] => ret (ps, None)
  | fi :: rest =>
      if IsDir fi && negb (String.eqb (Name fi) gitDir) then
        '(subps, err) <- recur (path ++ [Name fi]) ;;
        match err with
        | Some e => ret (ps, Some e)
        | None =>
            subdirsLoop recur path rest
              (if (0 <? List.length subps)%nat then ps ++ subps else ps)
        end
      else subdirsLoop recur path rest ps
  end.

(** [readPatterns] reads gitignore patterns recursively traversing
    through the directory structure.  The result is in the ascending
    order of priority (last higher).  [fuel] bounds the depth of the
    recursion.  The path of a call is a value here; in the source it is a
    slice that the calls for later subdirectories may append into, which
    never changes the path a running call sees (writes go to positions at
    or past its length) but may change the domain that an earlier pattern
    holds. *)
Fixpoint readPatterns (fuel : nat) (path : list string)
  : M (list Pattern * option error) :=
  match fuel with
  | O => None
  | S k =>
      '(ps, err) <- ignoreFilesLoop path defaultIgnoreFiles [] ;;
      match err with
      | Some e => ret (ps, Some e)
      | None =>
          match ReadDir fs (Join fs path) with
          | inr e => ret (ps, Some e)
          | inl fis => subdirsLoop (readPatterns k) path fis ps
          end
      end
  end.

End Collector.

(** *** Locating the git root *)

(** [IgnoreFactory] defines dependency functions so that they can be
    replaced in tests. *)
Record IgnoreFactory : Type := mkIgnoreFactory {
  filepathAbs : string -> string + error;
  osGetwd : unit -> string + error
}.

Section GetRootGitDir.

(** The operating system: [os.Stat] reports whether the call returned a
    nil error; [filepath.Join] and [filepath.Dir] are the path functions;
    [osfs.New] makes the filesystem rooted at a directory. *)
Variable os_Stat : string -> bool.
Variable filepath_Join : list string -> string.
Variable filepath_Dir : string -> string.
Variable osfs_New : string -> Filesystem.

(** The [for] loop of [GetRootGitDir]; [None] when [fuel] rounds were not
    enough to leave it. *)
Fixpoint climb (fuel : nat) (workingDir dir : string)
  : option Filesystem :=
  match fuel with
  | O => None
  | S k =>
      if os_Stat (filepath_Join [dir; ".git"]) then Some (osfs_New dir)
      else
        let parent := filepath_Dir dir in
        if String.eqb parent dir then Some (osfs_New workingDir)
        else climb k workingDir parent
  end.

Definition GetRootGitDir (iFactory : IgnoreFactory) (fuel : nat)
           (workingDir : string) : option (Filesystem + error) :=
  match filepathAbs iFactory workingDir with
  | inr err => Some (inr err)
  | inl dir =>
      match climb fuel workingDir dir with
      | None => None
      | Some filesystem => Some (inl filesystem)
      end
  end.

End GetRootGitDir.

(** *** The Ignore object *)

(** [Ignore] is a gitignore-style object to ignore files/directories. *)
Record Ignore : Type := mkIgnore {
  matcher : Matcher
}.

Section NewIgnore.

(** [gitignore.ReadPatterns], the collector of the on-disk patterns. *)
Variable ReadPatterns :
  Filesystem -> list string -> list string -> list Pattern * option error.

Definition NewIgnore (iFactory : IgnoreFactory) (filesystem : Filesystem)
           (lines : list string) : Ignore + error :=
  match osGetwd iFactory tt with
  | inr err => inr err
  | inl cwd =>
      match ReadPatterns filesystem [] defaultIgnoreFiles with
      | (_, Some err) => inr err
      | (ps, None) =>
          let dom := getDomainFromWorkingDir cwd (Root filesystem) in
          let ps :=
            fold_left (fun ps line => ps ++ [ParsePattern line dom])
                      lines ps in
          inl (mkIgnore (NewMatcher ps))
      end
  end.

End NewIgnore.

(** [Match] returns true if the provided file matches any of the defined
    ignores. *)
Definition Match (i : Ignore) (f : string) (isDir : bool) : bool :=
  let parts := FilterEmptyStrings (Split f PathSeparator) in
  gitignore.Match (matcher i) parts isDir.

End ignore.

(** ** Vocabulary of the statements *)

Module vocabulary.
Import strings.

(** The names of a rule list, in order. *)
Definition names (rs : list rule.Rule) : list string := map rule.Name rs.

(** What [ConfigureRules] does to a rule it keeps. *)
Definition finalize (includeNote : bool) (r : rule.Rule) : rule.Rule :=
  rule.SetIncludeNote includeNote (rule.SetRegexp r).

(** A rule one of whose categories is in the exclusion list. *)
Definition excluded (excludeCategories : list string) (r : rule.Rule)
  : bool :=
  existsb (fun ex => rule.ContainsCategory r ex) excludeCategories.

(** The indices that the loop over the rules collects: those of the
    excluded rules, counted from [i]. *)
Fixpoint indicesFrom (excludeCategories : list string) (i : Z)
         (rs : list rule.Rule) : list Z :=
  match rs with
  | [] => []
  | r :: rest =>
      if excluded excludeCategories r
      then i :: indicesFrom excludeCategories (i + 1) rest
      else indicesFrom excludeCategories (i + 1) rest
  end.

(** The git root as [getDomainFromWorkingDir] uses it: with the path
    separator at its end. *)
Definition rooted (gitRoot : string) : string :=
  if HasSuffix gitRoot ignore.PathSeparator then gitRoot
  else (gitRoot ++ ignore.PathSeparator)%string.

(** The segments of a path read off byte by byte: the non-empty runs
    between path separators.  [cur] is the run read so far. *)
Fixpoint segmentsFrom (cur : string) (s : string) : list string :=
  match s with
  | EmptyString => if String.eqb cur "" then [] else [cur]
  | String c s' =>
      if Ascii.eqb c "/" then
        if String.eqb cur "" then segmentsFrom "" s'
        else cur :: segmentsFrom "" s'
      else segmentsFrom (cur ++ String c "") s'
  end.

Definition segmentsOf (s : string) : list string := segmentsFrom "" s.

(** Gluing a run read so far in front of the first piece of a split. *)
Definition glue (cur : string) (pieces : list string) : list string :=
  match pieces with
  | [] => [cur]
  | h :: t => (cur ++ h)%string :: t
  end.

(** The lines of an ignore file that become patterns: neither a comment
    nor blank. *)
Definition keepLine (TrimSpace : string -> string) (s : string) : bool :=
  negb (HasPrefix s ignore.commentPrefix)
  && (0 <? String.length (TrimSpace s))%nat.

(** The patterns of the lines of one file, in line order, scoped to the
    directory [path]. *)
Definition linePatterns (TrimSpace : string -> string) (path : list string)
           (f : ignore.File) : list gitignore.Pattern :=
  map (fun s => gitignore.ParsePattern s path) (filter (keepLine TrimSpace) f).

(** What the ignore file [filename] of directory [path] contributes:
    nothing when it cannot be opened. *)
Definition filePatterns (TrimSpace : string -> string)
           (fs : ignore.Filesystem) (path : list string) (filename : string)
  : list gitignore.Pattern :=
  match ignore.Open fs (ignore.Join fs (path ++ [filename])) with
  | inl f => linePatterns TrimSpace path f
  | inr _ => []
  end.

(** The patterns of a directory's own ignore files, in the order of the
    recognised file names. *)
Definition localPatterns (TrimSpace : string -> string)
           (fs : ignore.Filesystem) (path : list string)
  : list gitignore.Pattern :=
  flat_map (filePatterns TrimSpace fs path) ignore.defaultIgnoreFiles.

(** The entries of a listing that the collector descends into. *)
Definition walkable (fi : ignore.FileInfo) : bool :=
  ignore.IsDir fi && negb (String.eqb (ignore.Name fi) ignore.gitDir).

(** Where a pattern comes from: the directory whose ignore file was read,
    the name of that file, and the line. *)
Record Origin : Type := mkOrigin {
  originDir : list string;
  originFile : string;
  originLine : string
}.

(** The origins that the ignore file [filename] of directory [path]
    contributes: its pattern lines, in line order; none when the file
    cannot be opened. *)
Definition fileOrigins (TrimSpace : string -> string)
           (fs : ignore.Filesystem) (path : list string) (filename : string)
  : list Origin :=
  match ignore.Open fs (ignore.Join fs (path ++ [filename])) with
  | inl f => map (mkOrigin path filename) (filter (keepLine TrimSpace) f)
  | inr _ => []
  end.

(** The origins of a directory's own ignore files, in the order of the
    recognised file names. *)
Definition localOrigins (TrimSpace : string -> string)
           (fs : ignore.Filesystem) (path : list string) : list Origin :=
  flat_map (fileOrigins TrimSpace fs path) ignore.defaultIgnoreFiles.

(** The output ordering in the words of the specification: this
    directory's origins, followed by those of each subdirectory other than
    .git, recursively, in listing order; [depth] levels deep. *)
Fixpoint origins (TrimSpace : string -> string) (fs : ignore.Filesystem)
         (depth : nat) (path : list string) : list Origin :=
  match depth with
  | O => []
  | S k =>
      localOrigins TrimSpace fs path
      ++ match ignore.ReadDir fs (ignore.Join fs path) with
         | inl fis =>
             flat_map (fun fi =>
                         origins TrimSpace fs k (path ++ [ignore.Name fi]))
                      (filter walkable fis)
         | inr _ => []
         end
  end.

(** The pattern that the call for an origin computes, with the domain as
    it is at the time of the call. *)
Definition patternOf (o : Origin) : gitignore.Pattern :=
  gitignore.ParsePattern (originLine o) (originDir o).

(** [compiledFrom p o]: the pattern [p] is the compilation of the line of
    [o]; nothing is said of the domain recorded in [p]. *)
Definition compiledFrom (p : gitignore.Pattern) (o : Origin) : Prop :=
  exists d : list string, p = gitignore.ParsePattern (originLine o) d.

(** [strictAncestor d1 d2]: directory [d2] lies strictly below [d1]. *)
Definition strictAncestor (d1 d2 : list string) : Prop :=
  exists (x : string) (rest : list string), d2 = d1 ++ x :: rest.

(** Two patterns listed in this order respect "ancestors first": the later
    one does not come from a strict ancestor of the earlier one's
    directory. *)
Definition inOrder (earlier later : gitignore.Pattern) : Prop :=
  ~ strictAncestor (gitignore.domain later) (gitignore.domain earlier).

(** The directory listings name each directory to descend into once. *)
Definition distinctListings (fs : ignore.Filesystem) : Prop :=
  forall (q : list string) (fis : list ignore.FileInfo),
    ignore.ReadDir fs (ignore.Join fs q) = inl fis ->
    NoDup (map ignore.Name (filter walkable fis)).

(** The event logged for an ignore file that does not exist, and the one
    logged for any other failure to open it. *)
Definition missingEvent (fs : ignore.Filesystem) (path : list string)
           (filename : string) : ignore.LogEvent :=
  ignore.mkLogEvent ignore.DebugLevel None
                    (ignore.Join fs (path ++ [filename])) "skipping ignorefile".

Definition failedEvent (fs : ignore.Filesystem) (path : list string)
           (filename : string) (err : ignore.error) : ignore.LogEvent :=
  ignore.mkLogEvent ignore.WarnLevel (Some err)
                    (ignore.Join fs (path ++ [filename])) "skipping ignorefile".

(** An ignore file that opens, or does not exist. *)
Definition readableOrMissing (fs : ignore.Filesystem) (path : list string)
           (filename : string) : Prop :=
  match ignore.Open fs (ignore.Join fs (path ++ [filename])) with
  | inl _ => True
  | inr err => ignore.IsNotExist err = true
  end.

(** The events of the first loop over file names that all open or do not
    exist. *)
Definition missingEvents (fs : ignore.Filesystem) (path : list string)
           (filenames : list string) : list ignore.LogEvent :=
  flat_map (fun filename =>
              match ignore.Open fs (ignore.Join fs (path ++ [filename])) with
              | inl _ => []
              | inr _ => [missingEvent fs path filename]
              end) filenames.

(** [depthBelow fs n path]: every chain of directories that the collector
    follows from [path] ends in fewer than [n] steps. *)
Fixpoint depthBelow (fs : ignore.Filesystem) (n : nat) (path : list string)
  : Prop :=
  match n with
  | O => False
  | S k =>
      forall fis, ignore.ReadDir fs (ignore.Join fs path) = inl fis ->
      forall fi, In fi fis -> walkable fi = true ->
                 depthBelow fs k (path ++ [ignore.Name fi])
  end.

End vocabulary.

(** ** Sample data *)

Module samples.
Import rule config.

(** A rule with a name and category tags, not yet finalised. *)
Definition plainRule (name : string) (categories : list string) : Rule :=
  mkRule name [name] (mkOptions None categories) None.

Definition ruleA : Rule := plainRule "rule-a" ["legacy"].
Definition ruleB : Rule := plainRule "rule-b" ["legacy"].
Definition ruleC : Rule := plainRule "rule-c" [].

(** Two rules tagged with the excluded category, followed by a rule that
    is not. *)
Definition twoExcluded : Config :=
  mkConfig [ruleA; ruleB; ruleC] [] None false ["legacy"].

(** A rule that is not excluded, followed by two that are. *)
Definition excludedAtEnd : Config :=
  mkConfig [ruleC; ruleA; ruleB] [] None false ["legacy"].

(** One excluded rule between two that are not. *)
Definition oneExcluded : Config :=
  mkConfig [ruleC; ruleA; plainRule "rule-e" ["other"]] ["vendor"] None true
           ["legacy"].

(** A small default table with pairwise distinct names. *)
Definition sampleDefaults : list Rule :=
  [plainRule "rule-b" []; plainRule "rule-d" []].

(** A config whose rule list repeats a name. *)
Definition repeatedName : Config :=
  mkConfig [plainRule "dup" ["x"]; plainRule "dup" ["y"]] [] None false [].

Definition oneRule : Config :=
  mkConfig [plainRule "rule-b" ["user"]] [] (Some "") true [].

(** A config file reader: woke.yaml holds a document, broken.yaml a
    malformed one, and no other file exists. *)
Definition readSample (filename : string) : string + string :=
  if String.eqb filename "/home/u/proj/woke.yaml" then inl "rules: ..."
  else if String.eqb filename "broken.yaml" then inl "rules: ["
  else inr "no such file".

Definition unmarshalSample (yamlFile : string) (c : Config)
  : Config * option string :=
  if String.eqb yamlFile "rules: ..."
  then (mkConfig [ruleC] ["vendor"] (Some "clean") true [], None)
  else (c, Some "yaml: did not find expected node content").

Definition relSample (cwd filename : string) : string + string :=
  if String.eqb cwd "/home/u/proj"
     && String.eqb filename "/home/u/proj/woke.yaml"
  then inl "woke.yaml" else inr "Rel: can't make relative".

Definition isAbsSample (p : string) : bool := strings.HasPrefix p "/".

(** A filesystem rooted at /root/proj that holds no ignore file and no
    directory. *)
Definition bareTree : ignore.Filesystem :=
  ignore.mkFilesystem
    (fun p => inr (ignore.mkError ("open " ++ p ++ ": no such file") true))
    (fun _ => inl [])
    (String.concat "/")
    "/root/proj".

(** A factory whose working directory is the root of [bareTree]. *)
Definition atRoot : ignore.IgnoreFactory :=
  ignore.mkIgnoreFactory (fun p => inl p) (fun _ => inl "/root/proj").

(** A factory whose working directory is one level below that root. *)
Definition belowRoot : ignore.IgnoreFactory :=
  ignore.mkIgnoreFactory (fun p => inl p) (fun _ => inl "/root/proj/sub").

(** The parent of each directory on the way from /home/u/proj to the
    root; the root is its own parent. *)
Definition parentOf (dir : string) : string :=
  if String.eqb dir "/home/u/proj" then "/home/u"
  else if String.eqb dir "/home/u" then "/home"
  else "/".

(** No entry exists anywhere. *)
Definition nothingExists (_ : string) : bool := false.

(** Only /home/u/.git exists. *)
Definition gitAtHomeU (p : string) : bool := String.eqb p "/home/u/.git".

(** The filesystem rooted at a directory, as far as its root goes. *)
Definition rootedAt (dir : string) : ignore.Filesystem :=
  ignore.mkFilesystem
    (fun p => inr (ignore.mkError ("open " ++ p ++ ": no such file") true))
    (fun _ => inl [])
    (String.concat "/")
    dir.

(** A factory that resolves proj to /home/u/proj and fails on the empty
    path. *)
Definition resolving : ignore.IgnoreFactory :=
  ignore.mkIgnoreFactory
    (fun p => if String.eqb p "" then inr (ignore.mkError "getwd failed" false)
              else inl ("/home/u/" ++ p)%string)
    (fun _ => inl "/home/u/proj").

(** Trimming of blanks and tabs at both ends. *)
Definition isBlank (c : ascii) : bool :=
  Ascii.eqb c " " || Ascii.eqb c "009".

Fixpoint trimLeft (s : string) : string :=
  match s with
  | EmptyString => EmptyString
  | String c s' => if isBlank c then trimLeft s' else s
  end.

Fixpoint trimRight (s : string) : string :=
  match s with
  | EmptyString => EmptyString
  | String c s' =>
      let t := trimRight s' in
      if String.eqb t "" && isBlank c then EmptyString else String c t
  end.

Definition trimBlanks (s : string) : string := trimRight (trimLeft s).

Definition noSuchFile (p : string) : ignore.error :=
  ignore.mkError ("open " ++ p ++ ": no such file or directory") true.

Definition denied (p : string) : ignore.error :=
  ignore.mkError ("open " ++ p ++ ": permission denied") false.

(** A small project: ignore files at the root, in src and in src/lib. *)
Definition projectTree : ignore.Filesystem :=
  ignore.mkFilesystem
    (fun p =>
       if String.eqb p ".gitignore"
       then inl ["# build output"; "*.log"; "  "; "!keep.log"]
       else if String.eqb p "src/.gitignore" then inl ["tmp/"]
       else if String.eqb p "src/lib/.wokeignore" then inl ["gen/*"]
       else inr (noSuchFile p))
    (fun p =>
       if String.eqb p ""
       then inl [ignore.mkFileInfo "README.md" false;
                 ignore.mkFileInfo ".git" true;
                 ignore.mkFileInfo "src" true;
                 ignore.mkFileInfo "docs" true]
       else if String.eqb p "src"
       then inl [ignore.mkFileInfo "lib" true;
                 ignore.mkFileInfo "main.go" false]
       else inl [])
    (String.concat "/")
    "/home/u/proj".

(** What the collector finds in [projectTree], from the root. *)
Definition projectPatterns : list gitignore.Pattern :=
  [gitignore.ParsePattern "*.log" [];
   gitignore.ParsePattern "!keep.log" [];
   gitignore.ParsePattern "tmp/" ["src"];
   gitignore.ParsePattern "gen/*" ["src"; "lib"]].

(** The same project with an unreadable .ignore file in src. *)
Definition lockedTree : ignore.Filesystem :=
  ignore.mkFilesystem
    (fun p =>
       if String.eqb p "src/.ignore" then inr (denied p)
       else ignore.Open projectTree p)
    (ignore.ReadDir projectTree)
    (String.concat "/")
    "/home/u/proj".

(** A collector that finds no pattern on disk. *)
Definition nothingOnDisk (_ : ignore.Filesystem) (_ _ : list string)
  : list gitignore.Pattern * option ignore.error := ([], None).

End samples.

(* ================================================================== *)
(** * Part II.  Properties *)
(* ================================================================== *)

(** ** Rule-set composition *)

Section ConfigFacts.
Import rule config vocabulary.

Lemma inExistingRules_true_iff (c : Config) (r : Rule) :
  inExistingRules c r = true <->
  exists n, In n (Rules c) /\ Name n = Name r.
Proof.
  unfold inExistingRules. rewrite existsb_exists.
  split; intros [n [Hin Hn]]; exists n; split; auto.
  - now apply String.eqb_eq.
  - now apply String.eqb_eq.
Qed.

Lemma inExistingRules_false_iff (c : Config) (r : Rule) :
  inExistingRules c r = false <-> ~ In (Name r) (names (Rules c)).
Proof.
  rewrite <- Bool.not_true_iff_false, inExistingRules_true_iff.
  unfold names. rewrite in_map_iff.
  split; intros H [n Hn]; apply H; exists n; tauto.
Qed.

Lemma inExistingRules_app (c : Config) (rs : list Rule) (r : Rule) :
  inExistingRules (setRules c (Rules c ++ rs)) r
  = inExistingRules c r || existsb (fun n => String.eqb (Name n) (Name r)) rs.
Proof. unfold inExistingRules. simpl. apply existsb_app. Qed.

(** The first loop leaves every other field of the config alone. *)
Lemma appendDefaults_fields (D : list Rule) (c : Config) :
  let c1 := appendDefaults D c in
  IgnoreFiles c1 = IgnoreFiles c
  /\ SuccessExitMessage c1 = SuccessExitMessage c
  /\ IncludeNote c1 = IncludeNote c
  /\ ExcludeCategories c1 = ExcludeCategories c.
Proof.
  revert c. unfold appendDefaults.
  induction D as [|d D IH]; intros c; simpl; [tauto|].
  destruct (inExistingRules c d); simpl.
  - apply IH.
  - specialize (IH (setRules c (Rules c ++ [d]))). simpl in IH. exact IH.
Qed.

(** The configured rules stay where they are: the first loop only adds to
    the end of the list. *)
Lemma appendDefaults_extends (D : list Rule) (c : Config) :
  exists appended, Rules (appendDefaults D c) = Rules c ++ appended.
Proof.
  revert c. unfold appendDefaults.
  induction D as [|d D IH]; intros c; simpl.
  - exists []. now rewrite app_nil_r.
  - destruct (inExistingRules c d); simpl.
    + apply IH.
    + destruct (IH (setRules c (Rules c ++ [d]))) as [app Happ].
      exists (d :: app). rewrite Happ. simpl. now rewrite <- app_assoc.
Qed.

(** With pairwise distinct default names, the rules added by the first loop
    are the defaults whose name no configured rule bears. *)
Lemma appendDefaults_filter (D : list Rule) :
  NoDup (names D) ->
  forall c, Rules (appendDefaults D c)
            = Rules c ++ filter (fun d => negb (inExistingRules c d)) D.
Proof.
  unfold appendDefaults.
  induction D as [|d D IH]; intros Hnd c; simpl.
  - now rewrite app_nil_r.
  - inversion Hnd as [|x xs Hnotin Hnd']; subst.
    destruct (inExistingRules c d) eqn:Hd; simpl.
    + now apply IH.
    + rewrite IH by assumption. simpl. rewrite <- app_assoc. simpl.
      do 2 f_equal.
      apply filter_ext_in. intros x Hx.
      rewrite inExistingRules_app. simpl. rewrite orb_false_r.
      assert (String.eqb (Name d) (Name x) = false) as ->.
      { apply String.eqb_neq. intros Heq. apply Hnotin.
        rewrite Heq. unfold names. now apply in_map. }
      now rewrite orb_false_r.
Qed.

Lemma appendDefaults_names_NoDup (D : list Rule) :
  forall c, NoDup (names (Rules c)) ->
            NoDup (names (Rules (appendDefaults D c))).
Proof.
  unfold appendDefaults.
  induction D as [|d D IH]; intros c Hc; simpl; [assumption|].
  destruct (inExistingRules c d) eqn:Hd; simpl.
  - now apply IH.
  - apply IH. simpl. unfold names. rewrite map_app. simpl.
    apply inExistingRules_false_iff in Hd.
    apply NoDup_app; [exact Hc | repeat constructor; simpl; tauto |].
    intros x Hx [Hx'|[]]. subst x. now apply Hd.
Qed.

End ConfigFacts.

Section ConfigClaims.
Import rule config vocabulary samples.

(** C9.  [GetSuccessExitMessage] returns "No findings found." when no
    custom success message is configured (the field is nil) and exactly the
    configured string otherwise, the empty string included. *)
Theorem GetSuccessExitMessage_default_or_configured :
  forall (rs : list Rule) (ig : list string) (note : bool) (ex : list string),
    GetSuccessExitMessage (mkConfig rs ig None note ex) = "No findings found."
    /\ (forall msg : string,
           GetSuccessExitMessage (mkConfig rs ig (Some msg) note ex) = msg)
    /\ GetSuccessExitMessage (mkConfig rs ig (Some "") note ex) = "".
Proof. intros rs ig note ex. repeat split. Qed.

(** C3.  For a default table with pairwise distinct names and any config:
    after the merge loop of [ConfigureRules] the configured rules are an
    unchanged prefix of the rule list, the rules appended behind them are
    the defaults whose name no configured rule bears, in table order; so a
    default whose name equals a configured rule's name is not appended, and
    every default whose name matches no configured rule is. *)
Theorem appendDefaults_configured_win :
  forall (DefaultRules : list Rule) (c : Config),
    NoDup (names DefaultRules) ->
    let merged := Rules (appendDefaults DefaultRules c) in
    let appended := skipn (List.length (Rules c)) merged in
    firstn (List.length (Rules c)) merged = Rules c
    /\ appended
       = filter (fun d => negb (inExistingRules c d)) DefaultRules
    /\ (forall d, In d DefaultRules ->
          (exists n, In n (Rules c) /\ Name n = Name d) ->
          ~ In d appended)
    /\ (forall d, In d DefaultRules ->
          (forall n, In n (Rules c) -> Name n <> Name d) ->
          In d appended).
Proof.
  intros D c Hnd merged appended. subst appended merged.
  rewrite (appendDefaults_filter D Hnd c).
  rewrite firstn_app, skipn_app, Nat.sub_diag, firstn_all, skipn_all.
  simpl. rewrite app_nil_r.
  repeat split.
  - intros d Hd Hex Hin. apply filter_In in Hin as [_ Hin].
    apply inExistingRules_true_iff in Hex. rewrite Hex in Hin. discriminate.
  - intros d Hd Hno. apply filter_In. split; [assumption|].
    destruct (inExistingRules c d) eqn:E; [|reflexivity].
    apply inExistingRules_true_iff in E as [n [Hn Hnm]].
    exfalso. now apply (Hno n).
Qed.

Lemma appendDefaults_configured_win_witness :
  let merged := Rules (appendDefaults sampleDefaults oneRule) in
  merged = [plainRule "rule-b" ["user"]; plainRule "rule-d" []]
  /\ firstn 1 merged = Rules oneRule
  /\ In (plainRule "rule-d" []) (skipn 1 merged).
Proof.
  assert (Hnd : NoDup (names sampleDefaults)).
  { repeat constructor; simpl; intuition discriminate. }
  pose proof (appendDefaults_configured_win sampleDefaults oneRule Hnd) as H.
  simpl in H. destruct H as [H1 [H2 [_ H4]]].
  split; [reflexivity|]. split; [exact H1|].
  apply H4.
  - simpl. tauto.
  - simpl. intros n [<-|[]]. discriminate.
Defined.

(** C4, as the code has it.  The merge loop never adds a name that is
    already in the list and never removes a rule: when the configured rules
    have pairwise distinct names, so has the list after the merge loop,
    whatever the default table; every name occurs after the merge loop at
    least as often as among the configured rules, so a name repeated among
    the configured rules stays repeated. *)
Theorem appendDefaults_names_unique :
  forall (DefaultRules : list Rule) (c : Config),
    (NoDup (names (Rules c)) ->
     NoDup (names (Rules (appendDefaults DefaultRules c))))
    /\ (forall name : string,
          (count_occ string_dec (names (Rules c)) name
           <= count_occ string_dec
                (names (Rules (appendDefaults DefaultRules c))) name)%nat)
    /\ (~ NoDup (names (Rules c)) ->
        ~ NoDup (names (Rules (appendDefaults DefaultRules c)))).
Proof.
  intros D c.
  destruct (appendDefaults_extends D c) as [added Hadded].
  split; [apply appendDefaults_names_NoDup|]. split.
  - intros name. rewrite Hadded. unfold names.
    rewrite map_app, count_occ_app. lia.
  - intros Hdup Hnd. apply Hdup. rewrite Hadded in Hnd. unfold names in Hnd.
    rewrite map_app in Hnd. exact (NoDup_app_remove_r _ _ Hnd).
Qed.

Lemma appendDefaults_names_unique_witness :
  NoDup (names (Rules oneRule))
  /\ NoDup (names (Rules (appendDefaults sampleDefaults oneRule)))
  /\ ~ NoDup (names (Rules (appendDefaults sampleDefaults repeatedName))).
Proof.
  assert (H : NoDup (names (Rules oneRule))).
  { repeat constructor; simpl; tauto. }
  split; [exact H|]. split.
  - exact (proj1 (appendDefaults_names_unique sampleDefaults oneRule) H).
  - apply (proj2 (proj2 (appendDefaults_names_unique sampleDefaults
                           repeatedName))).
    intros Hnd. simpl in Hnd. inversion Hnd as [|x xs Hnotin _]; subst.
    apply Hnotin. simpl. tauto.
Defined.

(** C4, as stated, fails: a name that the configured list repeats is still
    repeated after the merge loop. *)
Lemma appendDefaults_keeps_repeated_names :
  names (Rules (appendDefaults sampleDefaults repeatedName))
  = ["dup"; "dup"; "rule-b"; "rule-d"]
  /\ ~ NoDup (names (Rules (appendDefaults sampleDefaults repeatedName))).
Proof.
  split; [reflexivity|].
  intros H. simpl in H. inversion H as [|x xs Hnotin _]; subst.
  apply Hnotin. simpl. tauto.
Qed.

End ConfigClaims.

Section RemovalFacts.
Import rule config vocabulary samples.

Lemma RuleLoop_shape (c : Config) :
  forall (todo : list Rule) (i : Z) (done : list Rule) (ex : list Z),
  exists rs idx,
    RuleLoop c i todo done ex = (done ++ rs, ex ++ idx)
    /\ Forall (fun j => (i <= j)%Z) idx.
Proof.
  induction todo as [|r rest IH]; intros i done ex; simpl.
  - exists [], []. now rewrite !app_nil_r.
  - destruct (existsb _ _).
    + destruct (IH (i + 1)%Z (done ++ [r]) (ex ++ [i])) as (rs & idx & E & F).
      exists (r :: rs), (i :: idx). rewrite E, <- !app_assoc. simpl.
      split; [reflexivity|]. constructor; [lia|].
      eapply Forall_impl; [|exact F]. simpl. intros; lia.
    + destruct (IH (i + 1)%Z
                   (done ++ [SetIncludeNote (IncludeNote c) (SetRegexp r)]) ex)
        as (rs & idx & E & F).
      exists (SetIncludeNote (IncludeNote c) (SetRegexp r) :: rs), idx.
      rewrite E, <- !app_assoc. simpl.
      split; [reflexivity|].
      eapply Forall_impl; [|exact F]. simpl. intros; lia.
Qed.

Lemma RuleLoop_excluded (c : Config) (r : Rule) (rest done : list Rule)
      (i : Z) (ex : list Z) :
  existsb (fun e => ContainsCategory r e) (ExcludeCategories c) = true ->
  RuleLoop c i (r :: rest) done ex
  = RuleLoop c (i + 1) rest (done ++ [r]) (ex ++ [i]).
Proof. intros H. simpl. now rewrite H. Qed.

Lemma RuleLoop_kept (c : Config) (r : Rule) (rest done : list Rule)
      (i : Z) (ex : list Z) :
  existsb (fun e => ContainsCategory r e) (ExcludeCategories c) = false ->
  RuleLoop c i (r :: rest) done ex
  = RuleLoop c (i + 1) rest
      (done ++ [SetIncludeNote (IncludeNote c) (SetRegexp r)]) ex.
Proof. intros H. simpl. now rewrite H. Qed.

Lemma RemoveRule_keeps_head (c : Config) (i : Z) (r : Rule) (rest : list Rule) :
  Rules c = r :: rest -> (1 <= i)%Z ->
  exists rest', Rules (RemoveRule c i) = r :: rest'.
Proof.
  intros Hc Hi. unfold RemoveRule.
  destruct (_ || _)%bool.
  - now exists rest.
  - simpl. rewrite Hc.
    replace (Z.to_nat i) with (S (Z.to_nat (i - 1))) by lia.
    simpl. eexists. reflexivity.
Qed.

Lemma removeExcluded_keeps_head :
  forall (idx : list Z) (c c' : Config) (r : Rule) (rest : list Rule),
    Rules c = r :: rest ->
    Forall (fun j => (1 <= j)%Z) idx ->
    removeExcluded c idx = Some c' ->
    exists rest', Rules c' = r :: rest'.
Proof.
  induction idx as [|i idx IH]; intros c c' r rest Hc Hidx Hrun; simpl in Hrun.
  - injection Hrun as <-. now exists rest.
  - inversion Hidx as [|x xs Hi Hrest]; subst.
    destruct (ruleAt c i); [|discriminate].
    destruct (RemoveRule_keeps_head c i r rest Hc Hi) as [rest' Hrest'].
    eapply IH; eauto.
Qed.

(** C1.  The removal loop of [ConfigureRules] uses the indices collected
    before any removal.  With two excluded rules in front of a rule that is
    not excluded, the second removal hits the wrong entry: the excluded
    [ruleB] stays and the unexcluded [ruleC] is dropped; this holds of
    [ruleB] for every default table.  With the excluded rules at the end of
    the list, the second index is out of range and the call panics. *)
Theorem ConfigureRules_shifted_indices :
  existsb (ContainsCategory ruleB) (ExcludeCategories twoExcluded) = true
  /\ existsb (ContainsCategory ruleC) (ExcludeCategories twoExcluded) = false
  /\ option_map Rules (ConfigureRules [] twoExcluded) = Some [ruleB]
  /\ (forall (DefaultRules : list Rule) (c' : Config),
         ConfigureRules DefaultRules twoExcluded = Some c' ->
         hd_error (Rules c') = Some ruleB)
  /\ ConfigureRules [] excludedAtEnd = None.
Proof.
  split; [reflexivity|]. split; [reflexivity|]. split; [reflexivity|].
  split; [|reflexivity].
  intros D c'. unfold ConfigureRules.
  destruct (appendDefaults_extends D twoExcluded) as [added Hadded].
  destruct (appendDefaults_fields D twoExcluded) as (_ & _ & Hnote & Hex).
  set (c1 := appendDefaults D twoExcluded) in *.
  rewrite Hadded. simpl Rules. simpl List.app.
  rewrite RuleLoop_excluded by (rewrite Hex; reflexivity).
  rewrite RuleLoop_excluded by (rewrite Hex; reflexivity).
  rewrite RuleLoop_kept by (rewrite Hex; reflexivity).
  simpl.
  destruct (RuleLoop_shape c1 added 3%Z
              [ruleA; ruleB; SetIncludeNote (IncludeNote c1) (SetRegexp ruleC)]
              [0%Z; 1%Z]) as (rs & idx & E & F).
  rewrite E. simpl. intros Hrun.
  match type of Hrun with removeExcluded (RemoveRule ?c0 1) _ = _ =>
    destruct (RemoveRule_keeps_head c0 1%Z ruleB
                (SetIncludeNote (IncludeNote c1) (SetRegexp ruleC) :: rs))
      as [rest Hrest]; [reflexivity | lia |]
  end.
  eapply removeExcluded_keeps_head in Hrun.
  - destruct Hrun as [rest' ->]. reflexivity.
  - exact Hrest.
  - eapply Forall_impl; [|exact F]. simpl. intros; lia.
Qed.

End RemovalFacts.

(** ** Facts about the string functions *)

Section StringFacts.
Import strings.

Lemma length_append (s t : string) :
  String.length (s ++ t) = String.length s + String.length t.
Proof. induction s as [|c s IH]; simpl; [reflexivity | now rewrite IH]. Qed.

Lemma append_empty_r (s : string) : (s ++ "")%string = s.
Proof. induction s as [|c s IH]; simpl; [reflexivity | now rewrite IH]. Qed.

Lemma append_assoc (s t u : string) :
  ((s ++ t) ++ u)%string = (s ++ (t ++ u))%string.
Proof. induction s as [|c s IH]; simpl; [reflexivity | now rewrite IH]. Qed.

Lemma drop_append (s t : string) : drop (String.length s) (s ++ t) = t.
Proof. induction s as [|c s IH]; simpl; [now destruct t | exact IH]. Qed.

Lemma drop_all (s : string) : drop (String.length s) s = "".
Proof. induction s as [|c s IH]; simpl; [reflexivity | exact IH]. Qed.

Lemma length_drop (n : nat) (s : string) :
  String.length (drop n s) = String.length s - n.
Proof.
  revert s. induction n as [|n IH]; intros [|c s]; simpl; auto.
Qed.

Lemma HasPrefix_refl (s : string) : HasPrefix s s = true.
Proof.
  induction s as [|c s IH]; simpl; [reflexivity|].
  now rewrite Ascii.eqb_refl.
Qed.

Lemma HasPrefix_length (s p : string) :
  HasPrefix s p = true -> String.length p <= String.length s.
Proof.
  revert s. induction p as [|c p IH]; intros [|d s]; simpl; intros H;
    try lia; try discriminate.
  apply andb_true_iff in H as [_ H]. apply IH in H. lia.
Qed.

Lemma HasPrefix_append (s p : string) :
  HasPrefix s p = true -> s = (p ++ drop (String.length p) s)%string.
Proof.
  revert s. induction p as [|c p IH]; intros [|d s]; simpl; intros H;
    try reflexivity; try discriminate.
  apply andb_true_iff in H as [Hc H]. apply Ascii.eqb_eq in Hc. subst d.
  f_equal. now apply IH.
Qed.

Lemma HasPrefix_take (n : nat) (s p : string) :
  HasPrefix (take n s) p = true -> HasPrefix s p = true.
Proof.
  revert n s. induction p as [|c p IH]; intros n s; simpl.
  - auto.
  - destruct n as [|n], s as [|d s]; simpl; try discriminate.
    intros H. apply andb_true_iff in H as [-> H]. simpl. now apply (IH n).
Qed.

Lemma HasSuffix_append (s t : string) : HasSuffix (s ++ t) t = true.
Proof.
  unfold HasSuffix. rewrite length_append.
  replace (String.length s + String.length t - String.length t)
    with (String.length s) by lia.
  rewrite drop_append, String.eqb_refl.
  rewrite andb_true_r. apply Nat.leb_le. lia.
Qed.

Lemma Index_empty (sep : string) : sep <> "" -> Index "" sep = None.
Proof. destruct sep; [congruence | reflexivity]. Qed.

Lemma Index_prefix (s sep : string) :
  HasPrefix s sep = true -> Index s sep = Some 0.
Proof. intros H. destruct s; simpl in *; now rewrite H. Qed.

Lemma Index_bound (sep : string) :
  forall (s : string) (m : nat),
    Index s sep = Some m -> m + String.length sep <= String.length s.
Proof.
  induction s as [|c s IH]; intros m; simpl.
  - destruct (HasPrefix "" sep) eqn:E; [|discriminate].
    intros [= <-]. apply HasPrefix_length in E. simpl in *. lia.
  - destruct (HasPrefix (String c s) sep) eqn:E.
    + intros [= <-]. apply HasPrefix_length in E. simpl in *. lia.
    + destruct (Index s sep) as [k|]; simpl; [|discriminate].
      intros [= <-]. specialize (IH k eq_refl). lia.
Qed.

(** At the index found, the string reads: what comes before, the
    separator, what comes after. *)
Lemma Index_cut (sep : string) :
  forall (s : string) (m : nat),
    Index s sep = Some m ->
    s = (take m s ++ sep ++ drop (m + String.length sep) s)%string.
Proof.
  induction s as [|c s IH]; intros m; simpl.
  - destruct (HasPrefix "" sep) eqn:E; [|discriminate].
    intros [= <-]. simpl. now apply HasPrefix_append in E.
  - destruct (HasPrefix (String c s) sep) eqn:E.
    + intros [= <-]. simpl. now apply HasPrefix_append in E.
    + destruct (Index s sep) as [k|] eqn:Ek; simpl; [|discriminate].
      intros [= <-]. simpl. f_equal. now apply IH.
Qed.

(** No occurrence of the separator starts before the index found. *)
Lemma Index_take_free (sep : string) :
  sep <> "" ->
  forall (s : string) (m : nat),
    Index s sep = Some m -> Index (take m s) sep = None.
Proof.
  intros Hsep. induction s as [|c s IH]; intros m; simpl.
  - destruct (HasPrefix "" sep); [|discriminate].
    intros [= <-]. now apply Index_empty.
  - destruct (HasPrefix (String c s) sep) eqn:E.
    + intros [= <-]. now apply Index_empty.
    + destruct (Index s sep) as [k|] eqn:Ek; simpl; [|discriminate].
      intros [= <-]. simpl take.
      change (Index (String c (take k s)) sep)
        with (if HasPrefix (String c (take k s)) sep then Some 0
              else option_map S (Index (take k s) sep)).
      destruct (HasPrefix (String c (take k s)) sep) eqn:E'.
      * apply (HasPrefix_take (S k) (String c s)) in E'. congruence.
      * now rewrite IH.
Qed.

Lemma countLoop_le (sep : string) :
  forall (fuel : nat) (s : string), countLoop fuel s sep <= fuel.
Proof.
  induction fuel as [|k IH]; intros s; simpl; [lia|].
  destruct (Index s sep); [|lia]. specialize (IH (drop (n + String.length sep) s)). lia.
Qed.

(** Joining the pieces with the separator gives the string back, however
    many cuts were made. *)
Lemma splitLoop_join (sep : string) :
  forall (cuts : nat) (s : string),
    String.concat sep (splitLoop cuts s sep) = s.
Proof.
  induction cuts as [|k IH]; intros s; simpl; [reflexivity|].
  destruct (Index s sep) as [m|] eqn:E; [|reflexivity].
  specialize (IH (drop (m + String.length sep) s)).
  destruct (splitLoop k (drop (m + String.length sep) s) sep) as [|p ps] eqn:Ep.
  - destruct k; simpl in Ep; [discriminate|].
    destruct (Index _ sep); discriminate.
  - cbn [String.concat]. cbn [String.concat] in IH.
    rewrite IH. symmetry. now apply Index_cut.
Qed.

(** When the number of cuts is the count of occurrences, no piece holds the
    separator. *)
Lemma splitLoop_free (sep : string) :
  sep <> "" ->
  forall (fuel : nat) (s : string),
    String.length s <= fuel ->
    Forall (fun piece => Index piece sep = None)
           (splitLoop (countLoop fuel s sep) s sep).
Proof.
  intros Hsep. induction fuel as [|k IH]; intros s Hlen.
  - destruct s; [|simpl in Hlen; lia]. simpl.
    constructor; [now apply Index_empty | constructor].
  - simpl countLoop. destruct (Index s sep) as [m|] eqn:E.
    + simpl splitLoop. rewrite E. constructor.
      * now apply Index_take_free.
      * apply IH. rewrite length_drop.
        apply Index_bound in E.
        assert (0 < String.length sep) by (destruct sep; simpl; [congruence|lia]).
        lia.
    + simpl. constructor; [exact E | constructor].
Qed.

Lemma Split_unfold (s sep : string) :
  sep <> "" ->
  Split s sep = splitLoop (countLoop (String.length s) s sep) s sep.
Proof.
  intros Hsep. unfold Split, SplitN, Count.
  destruct (String.eqb_spec sep ""); [contradiction|].
  change (-1 =? 0)%Z with false. change (-1 <? 0)%Z with true. cbv iota.
  pose proof (countLoop_le sep (String.length s) s) as Hle.
  destruct (_ >? _)%Z eqn:E.
  - apply Z.gtb_lt in E. lia.
  - f_equal. lia.
Qed.

Lemma Split_join (s sep : string) :
  sep <> "" -> String.concat sep (Split s sep) = s.
Proof. intros H. rewrite Split_unfold by assumption. apply splitLoop_join. Qed.

Lemma Split_free (s sep : string) :
  sep <> "" -> Forall (fun piece => Index piece sep = None) (Split s sep).
Proof.
  intros H. rewrite Split_unfold by assumption.
  now apply splitLoop_free.
Qed.

(** [SplitN] with a limit of two pieces cuts at the first occurrence of a
    non-empty separator. *)
Lemma SplitN_two (s sep : string) :
  sep <> "" ->
  SplitN s sep 2
  = match Index s sep with
    | None => [s]
    | Some m => [take m s; drop (m + String.length sep) s]
    end.
Proof.
  intros Hsep. unfold SplitN.
  destruct (String.eqb_spec sep ""); [contradiction|].
  change (2 =? 0)%Z with false. change (2 <? 0)%Z with false. cbv iota.
  destruct (_ >? _)%Z eqn:E.
  - apply Z.gtb_lt in E.
    assert (H0 : String.length s = 0) by lia.
    destruct s; [|discriminate]. rewrite Index_empty by assumption. reflexivity.
  - reflexivity.
Qed.

End StringFacts.

(** ** The segments of a path *)

Section SegmentFacts.
Import strings util ignore vocabulary.

Lemma countLoop_enough (sep : string) :
  sep <> "" ->
  forall (f1 f2 : nat) (s : string),
    String.length s <= f1 -> String.length s <= f2 ->
    countLoop f1 s sep = countLoop f2 s sep.
Proof.
  intros Hsep. induction f1 as [|f1 IH]; intros f2 s H1 H2.
  - destruct s; [|simpl in H1; lia].
    destruct f2; cbn [countLoop]; [reflexivity|]. now rewrite Index_empty.
  - destruct f2 as [|f2].
    + destruct s; [|simpl in H2; lia]. cbn [countLoop].
      now rewrite Index_empty.
    + cbn [countLoop]. destruct (Index s sep) as [m|] eqn:E; [|reflexivity].
      f_equal. apply Index_bound in E.
      assert (0 < String.length sep)
        by (destruct sep; simpl; [congruence|lia]).
      apply IH; rewrite length_drop; lia.
Qed.

Lemma Index_slash_cons (c : ascii) (s : string) :
  Index (String c s) "/"
  = if Ascii.eqb c "/" then Some 0 else option_map S (Index s "/").
Proof.
  simpl. destruct (Ascii.eqb c "/"); reflexivity.
Qed.

Lemma countLoop_S (k : nat) (s sep : string) :
  countLoop (S k) s sep
  = match Index s sep with
    | None => 0
    | Some i => S (countLoop k (drop (i + String.length sep) s) sep)
    end.
Proof. reflexivity. Qed.

Lemma splitLoop_S (k : nat) (s sep : string) :
  splitLoop (S k) s sep
  = match Index s sep with
    | None => [s]
    | Some m => take m s :: splitLoop k (drop (m + String.length sep) s) sep
    end.
Proof. reflexivity. Qed.

(** [Split] on the slash, one byte at a time. *)
Lemma Split_slash_cons (c : ascii) (s : string) :
  Split (String c s) "/"
  = if Ascii.eqb c "/" then "" :: Split s "/"
    else match Split s "/" with
         | [] => [String c ""]
         | h :: t => String c h :: t
         end.
Proof.
  assert (Hsep : "/" <> "") by discriminate.
  rewrite !Split_unfold by assumption.
  change (String.length (String c s)) with (S (String.length s)).
  rewrite countLoop_S, Index_slash_cons.
  destruct (Ascii.eqb c "/") eqn:Ec.
  - rewrite splitLoop_S, Index_slash_cons, Ec. reflexivity.
  - destruct (Index s "/") as [m|] eqn:E; cbn [option_map].
    + rewrite splitLoop_S, Index_slash_cons, Ec, E. cbn [option_map].
      change (take (S m) (String c s)) with (String c (take m s)).
      change (drop (S m + String.length "/") (String c s))
        with (drop (m + String.length "/") s).
      pose proof (Index_bound "/" s m E) as Hb.
      destruct (String.length s) as [|n] eqn:Hn; [simpl in Hb; lia|].
      rewrite (countLoop_S n s), E, splitLoop_S, E.
      assert (Hlen : String.length (drop (m + String.length "/") s) <= n).
      { rewrite length_drop, Hn. change (String.length "/") with 1 in *. lia. }
      rewrite (countLoop_enough "/" Hsep (S n) n) by lia.
      reflexivity.
    + change (splitLoop 0 (String c s) "/") with [String c s].
      destruct (String.length s) as [|n].
      * reflexivity.
      * rewrite countLoop_S, E. reflexivity.
Qed.

Lemma Split_slash_nonempty (s : string) : Split s "/" <> [].
Proof.
  destruct s as [|c s]; [discriminate|].
  rewrite Split_slash_cons.
  destruct (Ascii.eqb c "/"); [discriminate|].
  destruct (Split s "/"); discriminate.
Qed.

Lemma segmentsFrom_Split :
  forall (s cur : string),
    FilterEmptyStrings (glue cur (Split s "/")) = segmentsFrom cur s.
Proof.
  induction s as [|c s IH]; intros cur.
  - simpl. rewrite append_empty_r. now destruct (String.eqb cur "").
  - rewrite Split_slash_cons. cbn [segmentsFrom].
    destruct (Ascii.eqb c "/") eqn:Ec.
    + cbn [glue]. rewrite append_empty_r.
      rewrite <- (IH "").
      assert (Hg : glue "" (Split s "/") = Split s "/").
      { pose proof (Split_slash_nonempty s) as Hne.
        destruct (Split s "/"); [contradiction | reflexivity]. }
      rewrite Hg. unfold FilterEmptyStrings. cbn [filter].
      now destruct (String.eqb cur "").
    + rewrite <- (IH (cur ++ String c "")%string).
      pose proof (Split_slash_nonempty s) as Hne.
      destruct (Split s "/") as [|h t]; [contradiction|].
      cbn [glue]. now rewrite append_assoc.
Qed.

(** The segments that [Match] and [getDomainFromWorkingDir] compute are the
    non-empty runs between separators. *)
Lemma FilterEmptyStrings_Split (s : string) :
  FilterEmptyStrings (Split s PathSeparator) = segmentsOf s.
Proof.
  unfold segmentsOf, PathSeparator. rewrite <- segmentsFrom_Split.
  pose proof (Split_slash_nonempty s) as Hne.
  destruct (Split s "/") as [|h t]; [contradiction|]. reflexivity.
Qed.

Lemma segmentsFrom_trailing (s cur : string) :
  segmentsFrom cur (s ++ "/") = segmentsFrom cur s.
Proof.
  revert cur. induction s as [|c s IH]; intros cur; simpl.
  - reflexivity.
  - destruct (Ascii.eqb c "/"); rewrite ?IH; reflexivity.
Qed.

Lemma segmentsFrom_repeated (a b cur : string) :
  segmentsFrom cur (a ++ "//" ++ b) = segmentsFrom cur (a ++ "/" ++ b).
Proof.
  revert cur. induction a as [|c a IH]; intros cur; simpl.
  - now destruct (String.eqb cur "").
  - destruct (Ascii.eqb c "/"); rewrite ?IH; reflexivity.
Qed.

End SegmentFacts.

(** ** The domain of the working directory *)

Section DomainClaims.
Import strings util ignore vocabulary.

Lemma PathSeparator_nonempty : PathSeparator <> "".
Proof. discriminate. Qed.

Lemma rooted_ends_with_separator (gitRoot : string) :
  HasSuffix (rooted gitRoot) PathSeparator = true.
Proof.
  unfold rooted. destruct (HasSuffix gitRoot PathSeparator) eqn:E.
  - exact E.
  - apply HasSuffix_append.
Qed.

Lemma rooted_nonempty (gitRoot : string) : rooted gitRoot <> "".
Proof.
  intros H. pose proof (rooted_ends_with_separator gitRoot) as E.
  rewrite H in E. discriminate.
Qed.

Lemma FilterEmptyStrings_nonempty (l : list string) :
  Forall (fun s => s <> "") (FilterEmptyStrings l).
Proof.
  apply Forall_forall. intros s Hs. apply filter_In in Hs as [_ Hs].
  intros ->. discriminate.
Qed.

Lemma getDomainFromWorkingDir_unfold (workingDir gitRoot : string) :
  getDomainFromWorkingDir workingDir gitRoot
  = match Index workingDir (rooted gitRoot) with
    | None => []
    | Some m =>
        FilterEmptyStrings
          (Split (drop (m + String.length (rooted gitRoot)) workingDir)
                 PathSeparator)
    end.
Proof.
  unfold getDomainFromWorkingDir.
  replace (if negb (HasSuffix gitRoot PathSeparator)
           then (gitRoot ++ PathSeparator)%string else gitRoot)
    with (rooted gitRoot)
    by (unfold rooted; now destruct (HasSuffix gitRoot PathSeparator)).
  rewrite SplitN_two by apply rooted_nonempty.
  destruct (Index workingDir (rooted gitRoot)); reflexivity.
Qed.

(** C2, as the code has it.  [getDomainFromWorkingDir] first makes the git
    root end with the path separator, then cuts the working directory at
    the first occurrence of that root, wherever it starts, and returns the
    non-empty pieces of what follows it, split on the path separator; the
    result is the empty domain exactly when the root does not occur or
    nothing but separators follows it.  The pieces of the split join back to
    the text and hold no separator.  In particular, a working directory
    that begins with the root yields the segments of the remaining suffix,
    /root/proj/sub/cur under /root/proj yields sub, cur, and a working
    directory equal to the git root yields the empty domain. *)
Theorem getDomainFromWorkingDir_first_occurrence :
  forall workingDir gitRoot : string,
    HasSuffix (rooted gitRoot) PathSeparator = true
    /\ getDomainFromWorkingDir workingDir gitRoot
       = match Index workingDir (rooted gitRoot) with
         | None => []
         | Some m =>
             FilterEmptyStrings
               (Split (drop (m + String.length (rooted gitRoot)) workingDir)
                      PathSeparator)
         end
    /\ (forall rest : string,
           String.concat PathSeparator (Split rest PathSeparator) = rest
           /\ Forall (fun piece => Index piece PathSeparator = None)
                     (Split rest PathSeparator)
           /\ FilterEmptyStrings (Split rest PathSeparator) = segmentsOf rest)
    /\ Forall (fun seg => seg <> "" /\ Index seg PathSeparator = None)
              (getDomainFromWorkingDir workingDir gitRoot)
    /\ (HasPrefix workingDir (rooted gitRoot) = true ->
        getDomainFromWorkingDir workingDir gitRoot
        = FilterEmptyStrings
            (Split (drop (String.length (rooted gitRoot)) workingDir)
                   PathSeparator))
    /\ getDomainFromWorkingDir "/root/proj/sub/cur" "/root/proj"
       = ["sub"; "cur"]
    /\ getDomainFromWorkingDir gitRoot gitRoot = [].
Proof.
  intros workingDir gitRoot.
  split; [apply rooted_ends_with_separator|].
  split; [apply getDomainFromWorkingDir_unfold|].
  split.
  { intros rest. split; [|split].
    - apply Split_join, PathSeparator_nonempty.
    - apply Split_free, PathSeparator_nonempty.
    - apply FilterEmptyStrings_Split. }
  split.
  { rewrite getDomainFromWorkingDir_unfold.
    destruct (Index workingDir (rooted gitRoot)) as [m|]; [|constructor].
    apply Forall_forall. intros seg Hseg. split.
    - pose proof (FilterEmptyStrings_nonempty
                    (Split (drop (m + String.length (rooted gitRoot)) workingDir)
                           PathSeparator)) as H.
      rewrite Forall_forall in H. now apply H.
    - apply filter_In in Hseg as [Hseg _].
      pose proof (Split_free (drop (m + String.length (rooted gitRoot)) workingDir)
                             PathSeparator PathSeparator_nonempty) as H.
      rewrite Forall_forall in H. now apply H. }
  split.
  { intros Hpre. rewrite getDomainFromWorkingDir_unfold.
    now rewrite (Index_prefix _ _ Hpre). }
  split; [reflexivity|].
  rewrite getDomainFromWorkingDir_unfold. unfold rooted.
  destruct (HasSuffix gitRoot PathSeparator) eqn:E.
  - rewrite (Index_prefix _ _ (HasPrefix_refl gitRoot)).
    simpl Nat.add. now rewrite drop_all.
  - destruct (Index gitRoot (gitRoot ++ PathSeparator)) as [m|] eqn:Em;
      [|reflexivity].
    apply Index_bound in Em. rewrite length_append in Em. simpl in Em. lia.
Qed.

(** C2, as stated, fails: the git root may occur further inside a working
    directory that does not begin with it, and then the domain is not
    empty. *)
Lemma getDomainFromWorkingDir_root_inside :
  HasPrefix "/x/root/proj/sub" "/root/proj" = false
  /\ HasPrefix "/x/root/proj/sub" "/root/proj/" = false
  /\ getDomainFromWorkingDir "/x/root/proj/sub" "/root/proj" = ["sub"].
Proof. repeat split. Qed.

End DomainClaims.

(** ** Matching a path *)

Section MatchClaims.
Import strings util gitignore ignore vocabulary samples.

(** The last pattern decides when it matches; otherwise the patterns before
    it do. *)
Lemma NewMatcher_last (ps : list Pattern) (p : Pattern) (path : list string)
      (isDir : bool) :
  gitignore.Match (NewMatcher (ps ++ [p])) path isDir
  = match patternMatch p path isDir with
    | NoMatch => gitignore.Match (NewMatcher ps) path isDir
    | Exclude => true
    | Include => false
    end.
Proof.
  simpl. rewrite rev_app_distr. simpl.
  destruct (patternMatch p path isDir); reflexivity.
Qed.

Lemma Match_segmentsOf (i : Ignore) (f : string) (isDir : bool) :
  Match i f isDir = gitignore.Match (matcher i) (segmentsOf f) isDir.
Proof. unfold Match. now rewrite FilterEmptyStrings_Split. Qed.

(** C8.  [Ignore.Match] splits the path on the path separator, discards the
    empty segments and asks the matcher; the matcher built from a pattern
    list lets the last matching pattern decide, a negation pattern deciding
    "not ignored", and answers false when no pattern matches.  With the
    lines a/* and !a/keep.txt compiled in that order at the root,
    a/keep.txt is not ignored; with a/* alone, a/x is ignored and b/x is
    not.  The same answers come from the object that [NewIgnore] builds
    from those lines when the working directory is the root. *)
Theorem Match_last_pattern_wins :
  (forall (i : Ignore) (f : string) (isDir : bool),
      Match i f isDir
      = gitignore.Match (matcher i)
          (FilterEmptyStrings (Split f PathSeparator)) isDir
      /\ FilterEmptyStrings (Split f PathSeparator) = segmentsOf f
      /\ Forall (fun seg => seg <> "" /\ Index seg PathSeparator = None)
                (FilterEmptyStrings (Split f PathSeparator)))
  /\ (forall (ps : list Pattern) (p : Pattern) (path : list string)
             (isDir : bool),
         gitignore.Match (NewMatcher (ps ++ [p])) path isDir
         = match patternMatch p path isDir with
           | NoMatch => gitignore.Match (NewMatcher ps) path isDir
           | Exclude => true
           | Include => false
           end)
  /\ (forall (path : list string) (isDir : bool),
         gitignore.Match (NewMatcher []) path isDir = false)
  /\ Match (mkIgnore (NewMatcher [ParsePattern "a/*" [];
                                  ParsePattern "!a/keep.txt" []]))
           "a/keep.txt" false = false
  /\ Match (mkIgnore (NewMatcher [ParsePattern "a/*" []])) "a/keep.txt" false
     = true
  /\ Match (mkIgnore (NewMatcher [ParsePattern "a/*" []])) "a/x" false = true
  /\ Match (mkIgnore (NewMatcher [ParsePattern "a/*" []])) "b/x" false = false
  /\ (exists i : Ignore,
         NewIgnore nothingOnDisk atRoot bareTree ["a/*"; "!a/keep.txt"] = inl i
         /\ Match i "a/keep.txt" false = false
         /\ Match i "a/x" false = true
         /\ Match i "b/x" false = false).
Proof.
  split.
  { intros i f isDir. split; [reflexivity|].
    split; [apply FilterEmptyStrings_Split|].
    apply Forall_forall. intros seg Hseg.
    pose proof Hseg as Hseg'. apply filter_In in Hseg' as [Hin Hne]. split.
    - intros ->. discriminate.
    - pose proof (Split_free f PathSeparator) as H.
      rewrite Forall_forall in H. apply H; [discriminate | exact Hin]. }
  split; [exact NewMatcher_last|].
  split; [reflexivity|].
  split; [reflexivity|].
  split; [reflexivity|].
  split; [reflexivity|].
  split; [reflexivity|].
  eexists. split; [reflexivity|].
  repeat split.
Qed.

(** Lines handed to [NewIgnore] are scoped to the domain of the working
    directory: one level below the root, the line a/* ignores sub/a/x and
    leaves a/x alone. *)
Lemma NewIgnore_scopes_lines_to_domain :
  exists i : Ignore,
    NewIgnore nothingOnDisk belowRoot bareTree ["a/*"] = inl i
    /\ Match i "sub/a/x" false = true
    /\ Match i "a/x" false = false.
Proof. eexists. repeat split. Qed.

(** C10.  Two paths that split into the same sequence of non-empty
    segments get the same answer from [Ignore.Match], whatever the matcher
    and the directory flag; for instance a/b and //a//b/.  A separator in
    front of a path, one at its end, or a doubled separator inside it
    never changes the answer. *)
Theorem Match_depends_on_segments_only :
  forall (i : Ignore) (isDir : bool) (f g : string),
    FilterEmptyStrings (Split f PathSeparator)
    = FilterEmptyStrings (Split g PathSeparator) ->
    Match i f isDir = Match i g isDir
    /\ Match i "a/b" isDir = Match i "//a//b/" isDir
    /\ Match i ("/" ++ f) isDir = Match i f isDir
    /\ Match i (f ++ "/") isDir = Match i f isDir
    /\ (forall a b : string,
           Match i (a ++ "//" ++ b) isDir = Match i (a ++ "/" ++ b) isDir).
Proof.
  intros i isDir f g H. split; [|split; [|split; [|split]]].
  - unfold Match. now rewrite H.
  - reflexivity.
  - rewrite !Match_segmentsOf. reflexivity.
  - rewrite !Match_segmentsOf. unfold segmentsOf.
    now rewrite segmentsFrom_trailing.
  - intros a b. rewrite !Match_segmentsOf. unfold segmentsOf.
    now rewrite segmentsFrom_repeated.
Qed.

Lemma Match_depends_on_segments_only_witness :
  FilterEmptyStrings (Split "sub/x.log" PathSeparator)
  = FilterEmptyStrings (Split "/sub//x.log/" PathSeparator)
  /\ Match (mkIgnore (NewMatcher [ParsePattern "*.log" []])) "sub/x.log" false
     = Match (mkIgnore (NewMatcher [ParsePattern "*.log" []]))
             "/sub//x.log/" false
  /\ Match (mkIgnore (NewMatcher [ParsePattern "*.log" []])) "sub/x.log" false
     = true.
Proof.
  assert (H : FilterEmptyStrings (Split "sub/x.log" PathSeparator)
              = FilterEmptyStrings (Split "/sub//x.log/" PathSeparator))
    by reflexivity.
  split; [exact H|]. split; [|reflexivity].
  exact (proj1 (Match_depends_on_segments_only
                  (mkIgnore (NewMatcher [ParsePattern "*.log" []]))
                  false "sub/x.log" "/sub//x.log/" H)).
Defined.

End MatchClaims.

(** ** Locating the git root *)

Section RootClaims.
Import ignore vocabulary samples.

Variable os_Stat : string -> bool.
Variable filepath_Join : list string -> string.
Variable filepath_Dir : string -> string.
Variable osfs_New : string -> Filesystem.

Abbreviation up k dir := (Nat.iter k filepath_Dir dir) (only parsing).

Lemma up_shift (k : nat) (dir : string) :
  up k (filepath_Dir dir) = up (S k) dir.
Proof.
  induction k as [|k IH]; simpl; [reflexivity|].
  f_equal. exact IH.
Qed.

(** When no step up to the root finds a .git entry, the loop leaves with
    the filesystem of the working directory. *)
Lemma climb_fallback (workingDir : string) :
  forall (n : nat) (dir : string),
    (forall k, k <= n -> os_Stat (filepath_Join [up k dir; ".git"]) = false) ->
    filepath_Dir (up n dir) = up n dir ->
    forall fuel, n < fuel ->
      climb os_Stat filepath_Join filepath_Dir osfs_New fuel workingDir dir
      = Some (osfs_New workingDir).
Proof.
  induction n as [|n IH]; intros dir Hstat Hroot fuel Hfuel.
  - destruct fuel as [|fuel]; [lia|]. simpl.
    pose proof (Hstat 0 (Nat.le_refl 0)) as H0. simpl in H0. rewrite H0.
    simpl in Hroot. rewrite Hroot. now rewrite String.eqb_refl.
  - destruct fuel as [|fuel]; [lia|]. simpl.
    pose proof (Hstat 0 (Nat.le_0_l _)) as H0. simpl in H0. rewrite H0.
    destruct (String.eqb (filepath_Dir dir) dir); [reflexivity|].
    apply IH.
    + intros k Hk. rewrite up_shift. apply Hstat. lia.
    + rewrite !up_shift. exact Hroot.
    + lia.
Qed.

(** A found .git entry ends the loop with the filesystem of that
    directory. *)
Lemma climb_found (workingDir : string) :
  forall (n : nat) (dir : string),
    (forall k, k < n -> os_Stat (filepath_Join [up k dir; ".git"]) = false) ->
    (forall k, k < n -> filepath_Dir (up k dir) <> up k dir) ->
    os_Stat (filepath_Join [up n dir; ".git"]) = true ->
    forall fuel, n < fuel ->
      climb os_Stat filepath_Join filepath_Dir osfs_New fuel workingDir dir
      = Some (osfs_New (up n dir)).
Proof.
  induction n as [|n IH]; intros dir Hstat Hmove Hgit fuel Hfuel.
  - destruct fuel as [|fuel]; [lia|]. simpl.
    simpl in Hgit. now rewrite Hgit.
  - destruct fuel as [|fuel]; [lia|]. simpl climb.
    pose proof (Hstat 0 (Nat.lt_0_succ _)) as H0. simpl in H0. rewrite H0.
    pose proof (Hmove 0 (Nat.lt_0_succ _)) as H1. simpl in H1.
    apply String.eqb_neq in H1. rewrite H1.
    rewrite <- up_shift. apply IH.
    + intros k Hk. rewrite up_shift. apply Hstat. lia.
    + intros k Hk. rewrite !up_shift. apply Hmove. lia.
    + rewrite up_shift. exact Hgit.
    + lia.
Qed.

Lemma GetRootGitDir_error_iff (iFactory : IgnoreFactory) (fuel : nat)
      (workingDir : string) (err : error) :
  GetRootGitDir os_Stat filepath_Join filepath_Dir osfs_New iFactory fuel
                workingDir = Some (inr err)
  <-> filepathAbs iFactory workingDir = inr err.
Proof.
  unfold GetRootGitDir.
  destruct (filepathAbs iFactory workingDir) as [dir|e].
  - destruct (climb _ _ _ _ fuel workingDir dir); split; discriminate.
  - split; intros H; injection H as ->; reflexivity.
Qed.

End RootClaims.

Section RootClaim.
Import ignore vocabulary samples.

(** C5.  When the absolute form [dir] of the working directory can be
    computed, the root of the filesystem is reached after [n] steps upward
    from [dir] and no directory on the way holds a .git entry, then
    [GetRootGitDir] returns, for every budget of more than [n] rounds, the
    filesystem rooted at the original working directory and no error.  An
    error is returned exactly when the absolute path cannot be resolved,
    and it is that error. *)
Theorem GetRootGitDir_falls_back_to_workingDir :
  forall (os_Stat : string -> bool) (filepath_Join : list string -> string)
         (filepath_Dir : string -> string) (osfs_New : string -> Filesystem)
         (iFactory : IgnoreFactory) (workingDir dir : string) (n : nat),
    filepathAbs iFactory workingDir = inl dir ->
    (forall k, k <= n ->
       os_Stat (filepath_Join [Nat.iter k filepath_Dir dir; ".git"]) = false) ->
    filepath_Dir (Nat.iter n filepath_Dir dir) = Nat.iter n filepath_Dir dir ->
    (forall fuel, n < fuel ->
       GetRootGitDir os_Stat filepath_Join filepath_Dir osfs_New iFactory fuel
                     workingDir
       = Some (inl (osfs_New workingDir)))
    /\ (forall (fuel : nat) (w : string) (err : error),
          GetRootGitDir os_Stat filepath_Join filepath_Dir osfs_New iFactory
                        fuel w = Some (inr err)
          <-> filepathAbs iFactory w = inr err).
Proof.
  intros os_Stat filepath_Join filepath_Dir osfs_New iFactory workingDir dir n
         Habs Hstat Hroot.
  split.
  - intros fuel Hfuel. unfold GetRootGitDir. rewrite Habs.
    now rewrite (climb_fallback os_Stat filepath_Join filepath_Dir osfs_New
                   workingDir n dir Hstat Hroot fuel Hfuel).
  - intros fuel w err. apply GetRootGitDir_error_iff.
Qed.

Lemma GetRootGitDir_falls_back_to_workingDir_witness :
  GetRootGitDir nothingExists (String.concat "/") parentOf rootedAt resolving
                4 "proj"
  = Some (inl (rootedAt "proj"))
  /\ GetRootGitDir gitAtHomeU (String.concat "/") parentOf rootedAt resolving
                   4 "proj"
     = Some (inl (rootedAt "/home/u"))
  /\ GetRootGitDir nothingExists (String.concat "/") parentOf rootedAt
                   resolving 4 ""
     = Some (inr (mkError "getwd failed" false)).
Proof.
  split; [|split; reflexivity].
  refine (proj1 (GetRootGitDir_falls_back_to_workingDir
                   nothingExists (String.concat "/") parentOf rootedAt
                   resolving "proj" "/home/u/proj" 3
                   eq_refl _ eq_refl) 4 _).
  - intros k _. reflexivity.
  - apply Nat.lt_succ_diag_r.
Defined.

End RootClaim.

(** ** Collecting the ignore patterns *)

Section CollectorFacts.
Import strings gitignore ignore vocabulary.

Variable TrimSpace : string -> string.
Variable fs : Filesystem.

Lemma bind_Some {A B : Type} (m : M A) (k : A -> M B) (b : B)
      (l : list LogEvent) :
  bind m k = Some (b, l) ->
  exists a l1 l2, m = Some (a, l1) /\ k a = Some (b, l2) /\ l = l1 ++ l2.
Proof.
  unfold bind. destruct m as [[a l1]|]; [|discriminate].
  destruct (k a) as [[b' l2]|] eqn:E; [|discriminate].
  intros [= <- <-]. now exists a, l1, l2.
Qed.

Lemma grow_app (ps subps : list Pattern) :
  (if (0 <? List.length subps)%nat then ps ++ subps else ps) = ps ++ subps.
Proof. destruct subps; simpl; [now rewrite app_nil_r | reflexivity]. Qed.

Lemma scanLoop_linePatterns (path : list string) :
  forall (f : File) (ps : list Pattern),
    scanLoop TrimSpace path f ps = ps ++ linePatterns TrimSpace path f.
Proof.
  unfold linePatterns.
  induction f as [|s f IH]; intros ps.
  - simpl. now rewrite app_nil_r.
  - change (scanLoop TrimSpace path (s :: f) ps)
      with (if keepLine TrimSpace s
            then scanLoop TrimSpace path f (ps ++ [ParsePattern s path])
            else scanLoop TrimSpace path f ps).
    change (filter (keepLine TrimSpace) (s :: f))
      with (if keepLine TrimSpace s
            then s :: filter (keepLine TrimSpace) f
            else filter (keepLine TrimSpace) f).
    destruct (keepLine TrimSpace s).
    + rewrite IH, <- app_assoc. reflexivity.
    + apply IH.
Qed.

Lemma readIgnoreFile_opened (path : list string) (filename : string) (f : File) :
  Open fs (Join fs (path ++ [filename])) = inl f ->
  readIgnoreFile TrimSpace fs path filename
  = Some ((linePatterns TrimSpace path f, None), []).
Proof.
  intros H. unfold readIgnoreFile. rewrite H.
  now rewrite scanLoop_linePatterns.
Qed.

Lemma readIgnoreFile_missing (path : list string) (filename : string)
      (err : error) :
  Open fs (Join fs (path ++ [filename])) = inr err ->
  IsNotExist err = true ->
  readIgnoreFile TrimSpace fs path filename
  = Some (([], None), [missingEvent fs path filename]).
Proof. intros H E. unfold readIgnoreFile. rewrite H, E. reflexivity. Qed.

Lemma readIgnoreFile_failed (path : list string) (filename : string)
      (err : error) :
  Open fs (Join fs (path ++ [filename])) = inr err ->
  IsNotExist err = false ->
  readIgnoreFile TrimSpace fs path filename
  = Some (([], Some err), [failedEvent fs path filename err]).
Proof. intros H E. unfold readIgnoreFile. rewrite H, E. reflexivity. Qed.

(** One round of the first loop, by what the file turned out to be. *)
Lemma ignoreFilesLoop_step (path : list string) (filename : string)
      (rest : list string) (ps : list Pattern) :
  ignoreFilesLoop TrimSpace fs path (filename :: rest) ps
  = match Open fs (Join fs (path ++ [filename])) with
    | inl f =>
        ignoreFilesLoop TrimSpace fs path rest
                        (ps ++ linePatterns TrimSpace path f)
    | inr err =>
        if IsNotExist err
        then bind (emit (missingEvent fs path filename))
                  (fun _ => ignoreFilesLoop TrimSpace fs path rest ps)
        else Some ((ps, Some err), [failedEvent fs path filename err])
    end.
Proof.
  simpl ignoreFilesLoop.
  destruct (Open fs (Join fs (path ++ [filename]))) as [f|err] eqn:E.
  - rewrite (readIgnoreFile_opened _ _ _ E). unfold bind.
    rewrite grow_app.
    destruct (ignoreFilesLoop _ _ _ _ _) as [[r l]|]; reflexivity.
  - destruct (IsNotExist err) eqn:N.
    + rewrite (readIgnoreFile_missing _ _ _ E N). unfold bind, emit. simpl.
      reflexivity.
    + rewrite (readIgnoreFile_failed _ _ _ E N). reflexivity.
Qed.

Lemma ignoreFilesLoop_ok (path : list string) :
  forall (filenames : list string) (ps : list Pattern),
    Forall (readableOrMissing fs path) filenames ->
    ignoreFilesLoop TrimSpace fs path filenames ps
    = Some ((ps ++ flat_map (filePatterns TrimSpace fs path) filenames, None),
            missingEvents fs path filenames).
Proof.
  induction filenames as [|filename rest IH]; intros ps Hall.
  - simpl. now rewrite app_nil_r.
  - inversion Hall as [|x xs Hx Hrest]; subst.
    rewrite ignoreFilesLoop_step.
    unfold readableOrMissing in Hx. simpl flat_map.
    unfold missingEvents. simpl flat_map. unfold filePatterns at 1.
    destruct (Open fs (Join fs (path ++ [filename]))) as [f|err].
    + rewrite IH by assumption. now rewrite <- app_assoc.
    + rewrite Hx. unfold bind, emit. rewrite IH by assumption. reflexivity.
Qed.

Lemma ignoreFilesLoop_abort (path : list string) (filename : string)
      (after : list string) (err : error) :
  Open fs (Join fs (path ++ [filename])) = inr err ->
  IsNotExist err = false ->
  forall (before : list string) (ps : list Pattern),
    Forall (readableOrMissing fs path) before ->
    ignoreFilesLoop TrimSpace fs path (before ++ filename :: after) ps
    = Some ((ps ++ flat_map (filePatterns TrimSpace fs path) before, Some err),
            missingEvents fs path before ++ [failedEvent fs path filename err]).
Proof.
  intros Hopen Hne.
  induction before as [|b before IH]; intros ps Hall.
  - simpl app. rewrite ignoreFilesLoop_step, Hopen, Hne.
    simpl. now rewrite app_nil_r.
  - inversion Hall as [|x xs Hx Hrest]; subst.
    simpl app. rewrite ignoreFilesLoop_step.
    unfold readableOrMissing in Hx. simpl flat_map.
    unfold missingEvents. simpl flat_map. unfold filePatterns at 1.
    destruct (Open fs (Join fs (path ++ [b]))) as [f|e].
    + rewrite IH by assumption. now rewrite <- app_assoc.
    + rewrite Hx. unfold bind, emit. rewrite IH by assumption. reflexivity.
Qed.

Lemma ignoreFilesLoop_success (path : list string) :
  forall (filenames : list string) (ps ps' : list Pattern)
         (l : list LogEvent),
    ignoreFilesLoop TrimSpace fs path filenames ps = Some ((ps', None), l) ->
    ps' = ps ++ flat_map (filePatterns TrimSpace fs path) filenames.
Proof.
  induction filenames as [|filename rest IH]; intros ps ps' l.
  - simpl. intros [= <- _]. now rewrite app_nil_r.
  - rewrite ignoreFilesLoop_step. simpl flat_map. unfold filePatterns at 1.
    destruct (Open fs (Join fs (path ++ [filename]))) as [f|err].
    + intros H. apply IH in H. now rewrite <- app_assoc in H.
    + destruct (IsNotExist err); [|discriminate].
      intros H. apply bind_Some in H as (_ & l1 & l2 & _ & H & _).
      now apply IH in H.
Qed.

Lemma ignoreFilesLoop_returns (path : list string) :
  forall (filenames : list string) (ps : list Pattern),
  exists r, ignoreFilesLoop TrimSpace fs path filenames ps = Some r.
Proof.
  induction filenames as [|filename rest IH]; intros ps.
  - simpl. eexists. reflexivity.
  - rewrite ignoreFilesLoop_step.
    destruct (Open fs (Join fs (path ++ [filename]))) as [f|err].
    + apply IH.
    + destruct (IsNotExist err); [|eexists; reflexivity].
      destruct (IH ps) as [[r l] E]. unfold bind, emit. rewrite E.
      eexists. reflexivity.
Qed.

(** One round of the second loop. *)
Lemma subdirsLoop_step
      (recur : list string -> M (list Pattern * option error))
      (path : list string) (fi : FileInfo) (rest : list FileInfo)
      (ps : list Pattern) :
  subdirsLoop recur path (fi :: rest) ps
  = if walkable fi
    then match recur (path ++ [Name fi]) with
         | None => None
         | Some ((_, Some e), l) => Some ((ps, Some e), l)
         | Some ((subps, None), l) =>
             bind (Some (tt, l))
                  (fun _ => subdirsLoop recur path rest (ps ++ subps))
         end
    else subdirsLoop recur path rest ps.
Proof.
  simpl subdirsLoop. fold (walkable fi).
  destruct (walkable fi); [|reflexivity].
  unfold bind.
  destruct (recur (path ++ [Name fi])) as [[[subps [e|]] l]|];
    try reflexivity.
  - unfold ret. now rewrite app_nil_r.
  - now rewrite grow_app.
Qed.

Lemma subdirsLoop_success
      (recur : list string -> M (list Pattern * option error))
      (path : list string) :
  forall (fis : list FileInfo) (ps ps' : list Pattern) (l : list LogEvent),
    subdirsLoop recur path fis ps = Some ((ps', None), l) ->
    exists subs,
      Forall2 (fun fi sub =>
                 exists l', recur (path ++ [Name fi]) = Some ((sub, None), l'))
              (filter walkable fis) subs
      /\ ps' = ps ++ List.concat subs.
Proof.
  induction fis as [|fi rest IH]; intros ps ps' l.
  - simpl. intros [= <- _]. exists []. split; [constructor|].
    simpl. now rewrite app_nil_r.
  - rewrite subdirsLoop_step. simpl filter.
    destruct (walkable fi).
    + destruct (recur (path ++ [Name fi])) as [[[subps [e|]] l0]|] eqn:E;
        try discriminate.
      intros H. apply bind_Some in H as (_ & l1 & l2 & _ & H & _).
      apply IH in H as (subs & HF & ->).
      exists (subps :: subs). split.
      * constructor; [now exists l0 | exact HF].
      * simpl. now rewrite <- app_assoc.
    + apply IH.
Qed.

Lemma subdirsLoop_returns
      (recur : list string -> M (list Pattern * option error))
      (path : list string) :
  forall (fis : list FileInfo) (ps : list Pattern),
    (forall fi, In fi fis -> walkable fi = true ->
                exists r, recur (path ++ [Name fi]) = Some r) ->
    exists r, subdirsLoop recur path fis ps = Some r.
Proof.
  induction fis as [|fi rest IH]; intros ps Hrec.
  - simpl. eexists. reflexivity.
  - rewrite subdirsLoop_step. destruct (walkable fi) eqn:W.
    + destruct (Hrec fi (or_introl eq_refl) W) as [[[subps [e|]] l] E];
        rewrite E.
      * eexists. reflexivity.
      * destruct (IH (ps ++ subps)) as [[r l'] E'].
        { intros fi' Hin. apply Hrec. now right. }
        unfold bind. rewrite E'. eexists. reflexivity.
    + apply IH. intros fi' Hin. apply Hrec. now right.
Qed.

Lemma subdirsLoop_mono
      (rec1 rec2 : list string -> M (list Pattern * option error))
      (path : list string) :
  (forall p r, rec1 p = Some r -> rec2 p = Some r) ->
  forall (fis : list FileInfo) (ps : list Pattern) r,
    subdirsLoop rec1 path fis ps = Some r ->
    subdirsLoop rec2 path fis ps = Some r.
Proof.
  intros Hrec. induction fis as [|fi rest IH]; intros ps r.
  - simpl. auto.
  - rewrite !subdirsLoop_step. destruct (walkable fi); [|apply IH].
    destruct (rec1 (path ++ [Name fi])) as [[[subps [e|]] l]|] eqn:E;
      try discriminate; rewrite (Hrec _ _ E); auto.
    unfold bind.
    destruct (subdirsLoop rec1 path rest (ps ++ subps)) as [[r1 l1]|] eqn:E1;
      [|discriminate].
    now rewrite (IH _ _ E1).
Qed.

(** [readPatterns], one level unfolded. *)
Lemma readPatterns_step (k : nat) (path : list string) :
  readPatterns TrimSpace fs (S k) path
  = bind (ignoreFilesLoop TrimSpace fs path defaultIgnoreFiles [])
         (fun r =>
            match r with
            | (ps, Some e) => ret (ps, Some e)
            | (ps, None) =>
                match ReadDir fs (Join fs path) with
                | inr e => ret (ps, Some e)
                | inl fis =>
                    subdirsLoop (readPatterns TrimSpace fs k) path fis ps
                end
            end).
Proof.
  simpl readPatterns. f_equal.
Qed.

Lemma readPatterns_success (fuel : nat) (path : list string)
      (ps : list Pattern) (l : list LogEvent) :
  readPatterns TrimSpace fs fuel path = Some ((ps, None), l) ->
  exists k fis subs,
    fuel = S k
    /\ ReadDir fs (Join fs path) = inl fis
    /\ Forall2 (fun fi sub =>
                  exists l', readPatterns TrimSpace fs k (path ++ [Name fi])
                             = Some ((sub, None), l'))
               (filter walkable fis) subs
    /\ ps = localPatterns TrimSpace fs path ++ List.concat subs.
Proof.
  destruct fuel as [|k]; [discriminate|].
  rewrite readPatterns_step. intros H.
  apply bind_Some in H as ([ps0 [e|]] & l1 & l2 & H1 & H2 & _).
  - discriminate.
  - apply ignoreFilesLoop_success in H1. simpl in H1. subst ps0.
    destruct (ReadDir fs (Join fs path)) as [fis|e]; [|discriminate].
    apply subdirsLoop_success in H2 as (subs & HF & ->).
    now exists k, fis, subs.
Qed.

Lemma readPatterns_mono :
  forall (n : nat) (path : list string) r,
    readPatterns TrimSpace fs n path = Some r ->
    forall m, n <= m -> readPatterns TrimSpace fs m path = Some r.
Proof.
  induction n as [|n IH]; intros path r H m Hm; [discriminate|].
  destruct m as [|m]; [lia|].
  rewrite readPatterns_step in *.
  unfold bind in *.
  destruct (ignoreFilesLoop TrimSpace fs path defaultIgnoreFiles [])
    as [[[ps [e|]] l1]|]; try exact H; try discriminate.
  destruct (ReadDir fs (Join fs path)) as [fis|e]; [|exact H].
  destruct (subdirsLoop (readPatterns TrimSpace fs n) path fis ps)
    as [[r1 l2]|] eqn:E; [|discriminate].
  rewrite (subdirsLoop_mono (readPatterns TrimSpace fs n)
             (readPatterns TrimSpace fs m) path
             (fun p r' Hp => IH p r' Hp m (le_S_n _ _ Hm)) fis ps _ E).
  exact H.
Qed.

Lemma readPatterns_returns :
  forall (n : nat) (path : list string),
    depthBelow fs n path ->
    exists r, readPatterns TrimSpace fs n path = Some r.
Proof.
  induction n as [|n IH]; intros path Hd; [contradiction|].
  rewrite readPatterns_step.
  destruct (ignoreFilesLoop_returns path defaultIgnoreFiles [])
    as [[[ps [e|]] l1] E]; rewrite E; unfold bind, ret.
  - eexists. reflexivity.
  - destruct (ReadDir fs (Join fs path)) as [fis|e] eqn:R.
    + destruct (subdirsLoop_returns (readPatterns TrimSpace fs n) path fis ps)
        as [[r l2] E2].
      { intros fi Hin W. apply IH. simpl in Hd. eapply Hd; eauto. }
      rewrite E2. eexists. reflexivity.
    + eexists. reflexivity.
Qed.

End CollectorFacts.

(** ** The order of the collected patterns *)

Section OrderFacts.
Import strings gitignore ignore vocabulary.

Lemma strictAncestor_irrefl (d : list string) : ~ strictAncestor d d.
Proof.
  intros (x & rest & H). apply (f_equal (@List.length string)) in H.
  rewrite length_app in H. simpl in H. lia.
Qed.

Lemma strictAncestor_not_above (path rest : list string) :
  ~ strictAncestor (path ++ rest) path.
Proof.
  intros (x & r & H). apply (f_equal (@List.length string)) in H.
  rewrite !length_app in H. simpl in H. lia.
Qed.

Lemma strictAncestor_same_child (path : list string) (a b : string)
      (r1 r2 : list string) :
  strictAncestor (path ++ a :: r1) (path ++ b :: r2) -> a = b.
Proof.
  intros (x & rest & H). rewrite <- app_assoc in H.
  apply app_inv_head in H. simpl in H. now injection H.
Qed.

Lemma StronglySorted_app {A : Type} (R : A -> A -> Prop) (l1 l2 : list A) :
  StronglySorted R l1 -> StronglySorted R l2 ->
  (forall a b, In a l1 -> In b l2 -> R a b) ->
  StronglySorted R (l1 ++ l2).
Proof.
  intros H1 H2 Hx. induction H1 as [|a l1 Hs IH Hall]; simpl; [exact H2|].
  constructor.
  - apply IH. intros a' b Ha Hb. apply Hx; [now right | exact Hb].
  - apply Forall_app. split; [exact Hall|].
    apply Forall_forall. intros b Hb. apply Hx; [now left | exact Hb].
Qed.

Lemma StronglySorted_nth {A : Type} (R : A -> A -> Prop) (l : list A) :
  StronglySorted R l ->
  forall (i j : nat) (a b : A),
    i < j -> nth_error l i = Some a -> nth_error l j = Some b -> R a b.
Proof.
  induction 1 as [|x l Hs IH Hall]; intros i j a b Hij Hi Hj.
  - destruct i; discriminate.
  - destruct j as [|j]; [lia|]. simpl in Hj.
    destruct i as [|i]; simpl in Hi.
    + injection Hi as <-. rewrite Forall_forall in Hall.
      apply Hall. eapply nth_error_In; eauto.
    + apply (IH i j); [lia | assumption | assumption].
Qed.

Lemma domain_ParsePattern (s : string) (path : list string) :
  domain (ParsePattern s path) = path.
Proof. reflexivity. Qed.

Lemma same_domain_sorted (d : list string) (l : list Pattern) :
  Forall (fun p => domain p = d) l -> StronglySorted inOrder l.
Proof.
  induction 1 as [|p l Hp Hl IH]; constructor; [exact IH|].
  apply Forall_forall. intros q Hq. rewrite Forall_forall in Hl.
  unfold inOrder. rewrite Hp, (Hl q Hq). apply strictAncestor_irrefl.
Qed.

Section Tree.

Variable TrimSpace : string -> string.
Variable fs : Filesystem.

Lemma localPatterns_domain (path : list string) :
  Forall (fun p => domain p = path) (localPatterns TrimSpace fs path).
Proof.
  apply Forall_forall. intros p Hp. unfold localPatterns in Hp.
  apply in_flat_map in Hp as (filename & _ & Hp).
  unfold filePatterns in Hp.
  destruct (Open fs (Join fs (path ++ [filename]))) as [f|e]; [|contradiction].
  unfold linePatterns in Hp. apply in_map_iff in Hp as (s & <- & _).
  apply domain_ParsePattern.
Qed.

(** The patterns of sibling subtrees, one subtree after the other, are in
    order when each subtree is and the siblings have distinct names. *)
Lemma siblings_sorted (path : list string) :
  forall (fis : list FileInfo) (subs : list (list Pattern)),
    NoDup (map Name fis) ->
    Forall2 (fun fi sub =>
               Forall (fun p => exists rest,
                           domain p = path ++ Name fi :: rest) sub
               /\ StronglySorted inOrder sub) fis subs ->
    StronglySorted inOrder (List.concat subs)
    /\ Forall (fun p => exists fi rest,
                   In fi fis /\ domain p = path ++ Name fi :: rest)
              (List.concat subs).
Proof.
  intros fis subs Hnd HF. induction HF as [|fi sub fis subs [Hdom Hs] HF IH].
  - split; constructor.
  - inversion Hnd as [|x xs Hnotin Hnd']; subst.
    destruct (IH Hnd') as [IHs IHd]. simpl List.concat. split.
    + apply StronglySorted_app; [exact Hs | exact IHs |].
      intros q p Hq Hp. rewrite Forall_forall in Hdom, IHd.
      destruct (Hdom q Hq) as (r1 & Eq).
      destruct (IHd p Hp) as (fi' & r2 & Hfi' & Ep).
      unfold inOrder. rewrite Eq, Ep. intros Hanc.
      apply strictAncestor_same_child in Hanc.
      apply Hnotin. rewrite <- Hanc. now apply in_map.
    + apply Forall_app. split.
      * eapply Forall_impl; [|exact Hdom]. simpl.
        intros p (rest & E). exists fi, rest. split; [now left | exact E].
      * eapply Forall_impl; [|exact IHd]. simpl.
        intros p (fi' & rest & Hin & E). exists fi', rest.
        split; [now right | exact E].
Qed.

(** Every collected pattern belongs to the start directory or to a
    directory below it, and no pattern of a directory comes after a
    pattern of one of its descendants. *)
Lemma readPatterns_sorted :
  distinctListings fs ->
  forall (fuel : nat) (path : list string) (ps : list Pattern)
         (l : list LogEvent),
    readPatterns TrimSpace fs fuel path = Some ((ps, None), l) ->
    Forall (fun p => exists rest, domain p = path ++ rest) ps
    /\ StronglySorted inOrder ps.
Proof.
  intros Hnd. induction fuel as [|k IH]; intros path ps l H;
    [discriminate|].
  apply readPatterns_success in H
    as (k' & fis & subs & [= <-] & Hdir & HF & ->).
  assert (HF' : Forall2 (fun fi sub =>
               Forall (fun p => exists rest,
                           domain p = path ++ Name fi :: rest) sub
               /\ StronglySorted inOrder sub) (filter walkable fis) subs).
  { eapply Forall2_impl; [|exact HF]. simpl.
    intros fi sub (l' & Hsub). apply IH in Hsub as [Hd Hs].
    split; [|exact Hs].
    eapply Forall_impl; [|exact Hd]. simpl.
    intros p (rest & E). exists rest. now rewrite E, <- app_assoc. }
  destruct (siblings_sorted path _ _ (Hnd path fis Hdir) HF') as [Hs Hd].
  pose proof (localPatterns_domain path) as Hloc.
  split.
  - apply Forall_app. split.
    + eapply Forall_impl; [|exact Hloc]. simpl.
      intros p E. exists []. now rewrite app_nil_r.
    + eapply Forall_impl; [|exact Hd]. simpl.
      intros p (fi & rest & _ & E). now exists (Name fi :: rest).
  - apply StronglySorted_app; [now apply same_domain_sorted with path | exact Hs |].
    intros q p Hq Hp. rewrite Forall_forall in Hloc, Hd.
    destruct (Hd p Hp) as (fi & rest & _ & Ep).
    unfold inOrder. rewrite (Hloc q Hq), Ep.
    apply strictAncestor_not_above.
Qed.

End Tree.

End OrderFacts.

(** ** The origins of the collected patterns *)

Section OriginFacts.
Import strings gitignore ignore vocabulary.

Variable TrimSpace : string -> string.
Variable fs : Filesystem.

Lemma filePatterns_origins (path : list string) (filename : string) :
  filePatterns TrimSpace fs path filename
  = map patternOf (fileOrigins TrimSpace fs path filename).
Proof.
  unfold filePatterns, fileOrigins, linePatterns.
  destruct (Open fs (Join fs (path ++ [filename]))); [|reflexivity].
  now rewrite map_map.
Qed.

Lemma localPatterns_origins (path : list string) :
  localPatterns TrimSpace fs path
  = map patternOf (localOrigins TrimSpace fs path).
Proof.
  unfold localPatterns, localOrigins.
  induction defaultIgnoreFiles as [|filename rest IH]; [reflexivity|].
  simpl. now rewrite map_app, IH, filePatterns_origins.
Qed.

(** A successful collection returns, position by position, the patterns of
    the origins that the specification lists. *)
Lemma readPatterns_origins :
  forall (fuel : nat) (path : list string) (ps : list Pattern)
         (l : list LogEvent),
    readPatterns TrimSpace fs fuel path = Some ((ps, None), l) ->
    ps = map patternOf (origins TrimSpace fs fuel path).
Proof.
  induction fuel as [|k IH]; intros path ps l H; [discriminate|].
  apply readPatterns_success in H
    as (k' & fis & subs & [= <-] & Hdir & HF & ->).
  cbn [origins]. rewrite Hdir, map_app, localPatterns_origins. f_equal.
  induction HF as [|fi sub fis' subs' (l' & Hsub) HF IHF]; [reflexivity|].
  simpl. rewrite map_app, IHF. f_equal. exact (IH _ _ _ Hsub).
Qed.

Lemma patternOf_compiledFrom (os : list Origin) :
  Forall2 compiledFrom (map patternOf os) os.
Proof.
  induction os as [|o os IH]; constructor; [|exact IH].
  exists (originDir o). reflexivity.
Qed.

(** The origins of a successful collection lie in the start directory or
    below it, outside every directory named .git, and no origin of a
    directory comes after an origin of one of its descendants. *)
Lemma origins_sorted :
  distinctListings fs ->
  forall (fuel : nat) (path : list string) (ps : list Pattern)
         (l : list LogEvent),
    readPatterns TrimSpace fs fuel path = Some ((ps, None), l) ->
    Forall (fun o => exists rest, originDir o = path ++ rest)
           (origins TrimSpace fs fuel path)
    /\ (forall (i j : nat) (o1 o2 : Origin),
           nth_error (origins TrimSpace fs fuel path) i = Some o1 ->
           nth_error (origins TrimSpace fs fuel path) j = Some o2 ->
           strictAncestor (originDir o1) (originDir o2) -> (i < j)%nat).
Proof.
  intros Hnd fuel path ps l H.
  pose proof (readPatterns_origins fuel path ps l H) as Hps.
  destruct (readPatterns_sorted TrimSpace fs Hnd fuel path ps l H) as [Hd Hs].
  rewrite Hps in Hd, Hs. split.
  - rewrite Forall_map in Hd. exact Hd.
  - intros i j o1 o2 Hi Hj Hanc.
    destruct (Nat.lt_trichotomy i j) as [Hlt|[Heq|Hgt]]; [exact Hlt| |].
    + subst j. rewrite Hi in Hj. injection Hj as <-.
      now apply strictAncestor_irrefl in Hanc.
    + exfalso.
      apply (StronglySorted_nth inOrder _ Hs j i (patternOf o2) (patternOf o1)
               Hgt).
      * now rewrite nth_error_map, Hj.
      * now rewrite nth_error_map, Hi.
      * exact Hanc.
Qed.

(** The recursion of the specification's ordering, for a collection that
    succeeded: the listing was read and every recursive call returned
    without error. *)
Lemma origins_unfold :
  forall (fuel : nat) (path : list string) (ps : list Pattern)
         (l : list LogEvent),
    readPatterns TrimSpace fs fuel path = Some ((ps, None), l) ->
    exists (k : nat) (fis : list FileInfo),
      fuel = S k
      /\ ReadDir fs (Join fs path) = inl fis
      /\ Forall (fun fi =>
                   exists sub l',
                     readPatterns TrimSpace fs k (path ++ [Name fi])
                     = Some ((sub, None), l'))
                (filter walkable fis)
      /\ origins TrimSpace fs fuel path
         = localOrigins TrimSpace fs path
           ++ flat_map (fun fi => origins TrimSpace fs k (path ++ [Name fi]))
                       (filter walkable fis).
Proof.
  intros fuel path ps l H.
  apply readPatterns_success in H
    as (k & fis & subs & -> & Hdir & HF & _).
  exists k, fis. split; [reflexivity|]. split; [exact Hdir|]. split.
  - clear Hdir. induction HF as [|fi sub fis' subs' (l' & Hsub) HF IHF];
      constructor; [now exists sub, l' | exact IHF].
  - cbn [origins]. now rewrite Hdir.
Qed.

End OriginFacts.

Section CollectorClaims.
Import strings gitignore ignore vocabulary samples.

Lemma readPatterns_first_loop_ok (TrimSpace : string -> string)
      (fs : Filesystem) (k : nat) (path : list string) :
  Forall (readableOrMissing fs path) defaultIgnoreFiles ->
  readPatterns TrimSpace fs (S k) path
  = match ReadDir fs (Join fs path) with
    | inr e =>
        Some ((localPatterns TrimSpace fs path, Some e),
              missingEvents fs path defaultIgnoreFiles)
    | inl fis =>
        bind (Some (tt, missingEvents fs path defaultIgnoreFiles))
             (fun _ => subdirsLoop (readPatterns TrimSpace fs k) path fis
                                   (localPatterns TrimSpace fs path))
    end.
Proof.
  intros Hall. rewrite readPatterns_step.
  rewrite (ignoreFilesLoop_ok TrimSpace fs path defaultIgnoreFiles [] Hall).
  change ([] ++ flat_map (filePatterns TrimSpace fs path) defaultIgnoreFiles)
    with (localPatterns TrimSpace fs path).
  unfold bind, ret.
  destruct (ReadDir fs (Join fs path)) as [fis|e].
  - reflexivity.
  - now rewrite app_nil_r.
Qed.

Lemma readPatterns_first_loop_abort (TrimSpace : string -> string)
      (fs : Filesystem) (k : nat) (path : list string)
      (before after : list string) (filename : string) (err : error) :
  defaultIgnoreFiles = before ++ filename :: after ->
  Forall (readableOrMissing fs path) before ->
  Open fs (Join fs (path ++ [filename])) = inr err ->
  IsNotExist err = false ->
  readPatterns TrimSpace fs (S k) path
  = Some ((flat_map (filePatterns TrimSpace fs path) before, Some err),
          missingEvents fs path before ++ [failedEvent fs path filename err]).
Proof.
  intros Hsplit Hall Hopen Hne. rewrite readPatterns_step, Hsplit.
  rewrite (ignoreFilesLoop_abort TrimSpace fs path filename after err
             Hopen Hne before [] Hall).
  unfold bind, ret. simpl app. now rewrite app_nil_r.
Qed.

(** C6.  When an ignore file cannot be opened, [readIgnoreFile] returns an
    empty pattern list; for a file that does not exist it returns no error
    and logs at debug level, for any other failure it returns that error
    (logged as a warning).  In the first loop of [readPatterns] a missing
    file leaves the collected patterns as they are and the loop goes on to
    the next file name; when the files of a directory all open or are
    missing, collection goes on to the directory listing with the
    directory's own patterns.  Any other failure ends the loop with that
    error: [readPatterns] returns the patterns of the files before it and
    the error, without listing the directory, and the caller that recursed
    into this directory returns the error as well. *)
Theorem readIgnoreFile_missing_is_not_an_error :
  forall (TrimSpace : string -> string) (fs : Filesystem)
         (path : list string) (ignoreFile : string) (err : error),
    Open fs (Join fs (path ++ [ignoreFile])) = inr err ->
    let file := Join fs (path ++ [ignoreFile]) in
    readIgnoreFile TrimSpace fs path ignoreFile
    = (if IsNotExist err
       then Some (([], None),
                  [mkLogEvent DebugLevel None file "skipping ignorefile"])
       else Some (([], Some err),
                  [mkLogEvent WarnLevel (Some err) file "skipping ignorefile"]))
    /\ filePatterns TrimSpace fs path ignoreFile = []
    /\ (forall (rest : list string) (ps : list Pattern),
           ignoreFilesLoop TrimSpace fs path (ignoreFile :: rest) ps
           = if IsNotExist err
             then bind (emit (mkLogEvent DebugLevel None file
                                         "skipping ignorefile"))
                       (fun _ => ignoreFilesLoop TrimSpace fs path rest ps)
             else Some ((ps, Some err),
                        [mkLogEvent WarnLevel (Some err) file
                                    "skipping ignorefile"]))
    /\ (IsNotExist err = true ->
        Forall (readableOrMissing fs path) defaultIgnoreFiles ->
        forall k : nat,
          readPatterns TrimSpace fs (S k) path
          = match ReadDir fs (Join fs path) with
            | inr e =>
                Some ((localPatterns TrimSpace fs path, Some e),
                      missingEvents fs path defaultIgnoreFiles)
            | inl fis =>
                bind (Some (tt, missingEvents fs path defaultIgnoreFiles))
                     (fun _ =>
                        subdirsLoop (readPatterns TrimSpace fs k) path fis
                                    (localPatterns TrimSpace fs path))
            end)
    /\ (IsNotExist err = false ->
        forall (before after : list string) (k : nat),
          defaultIgnoreFiles = before ++ ignoreFile :: after ->
          Forall (readableOrMissing fs path) before ->
          readPatterns TrimSpace fs (S k) path
          = Some ((flat_map (filePatterns TrimSpace fs path) before, Some err),
                  missingEvents fs path before
                  ++ [mkLogEvent WarnLevel (Some err) file
                                 "skipping ignorefile"]))
    /\ (forall (recur : list string -> M (list Pattern * option error))
               (parent : list string) (fi : FileInfo) (rest : list FileInfo)
               (ps sub : list Pattern) (e : error) (l : list LogEvent),
           walkable fi = true ->
           recur (parent ++ [Name fi]) = Some ((sub, Some e), l) ->
           subdirsLoop recur parent (fi :: rest) ps = Some ((ps, Some e), l)).
Proof.
  intros TrimSpace fs path ignoreFile err Hopen file.
  split.
  { destruct (IsNotExist err) eqn:N.
    - exact (readIgnoreFile_missing TrimSpace fs path ignoreFile err Hopen N).
    - exact (readIgnoreFile_failed TrimSpace fs path ignoreFile err Hopen N). }
  split.
  { unfold filePatterns. now rewrite Hopen. }
  split.
  { intros rest ps. rewrite ignoreFilesLoop_step, Hopen. reflexivity. }
  split.
  { intros _ Hall k. now apply readPatterns_first_loop_ok. }
  split.
  { intros N before after k Hsplit Hall.
    exact (readPatterns_first_loop_abort TrimSpace fs k path before after
             ignoreFile err Hsplit Hall Hopen N). }
  intros recur parent fi rest ps sub e l W Hrec.
  rewrite subdirsLoop_step, W, Hrec. reflexivity.
Qed.

Lemma readIgnoreFile_missing_is_not_an_error_witness :
  Open lockedTree (Join lockedTree (["src"] ++ [".ignore"]))
  = inr (denied "src/.ignore")
  /\ readIgnoreFile trimBlanks lockedTree ["src"] ".ignore"
     = Some (([], Some (denied "src/.ignore")),
             [mkLogEvent WarnLevel (Some (denied "src/.ignore"))
                         "src/.ignore" "skipping ignorefile"])
  /\ readPatterns trimBlanks lockedTree 1 ["src"]
     = Some (([ParsePattern "tmp/" ["src"]], Some (denied "src/.ignore")),
             [mkLogEvent WarnLevel (Some (denied "src/.ignore"))
                         "src/.ignore" "skipping ignorefile"])
  /\ option_map fst (readPatterns trimBlanks lockedTree 3 [])
     = Some ([ParsePattern "*.log" []; ParsePattern "!keep.log" []],
             Some (denied "src/.ignore"))
  /\ readIgnoreFile trimBlanks projectTree ["src"] ".ignore"
     = Some (([], None),
             [mkLogEvent DebugLevel None "src/.ignore" "skipping ignorefile"])
  /\ option_map fst (readPatterns trimBlanks projectTree 3 [])
     = Some (projectPatterns, None).
Proof.
  pose proof (readIgnoreFile_missing_is_not_an_error trimBlanks lockedTree
                ["src"] ".ignore" (denied "src/.ignore") eq_refl) as H.
  cbv zeta in H. destruct H as (H1 & _ & _ & _ & H5 & _).
  split; [reflexivity|]. split; [exact H1|]. split.
  - refine (H5 eq_refl [".gitignore"] [".wokeignore"; ".git/info/exclude"]
               0 eq_refl _).
    repeat constructor.
  - repeat split.
Defined.

(** C7.  When [readPatterns] returns without error on a tree whose listings
    name each subdirectory once, the returned sequence corresponds,
    position by position, to the sequence of origins that the
    specification describes: each pattern is the compilation of the line of
    its origin, and the origins are those of the start directory's own
    ignore files (in the order .gitignore, .ignore, .wokeignore,
    .git/info/exclude, each file in line order), followed by the origins
    of the subdirectories other than .git, recursively, in listing order.
    Every origin lies in the start directory or below it, and an origin in
    a directory stands before every origin in each of its descendants, at
    any depth.  Where a pattern comes from is read off this
    correspondence, never off the domain that the pattern records.  A
    larger recursion budget returns the same sequence. *)
Theorem readPatterns_ancestors_first :
  forall (TrimSpace : string -> string) (fs : Filesystem) (fuel : nat)
         (path : list string) (ps : list Pattern) (l : list LogEvent),
    distinctListings fs ->
    readPatterns TrimSpace fs fuel path = Some ((ps, None), l) ->
    defaultIgnoreFiles
    = [".gitignore"; ".ignore"; ".wokeignore"; ".git/info/exclude"]
    /\ Forall2 compiledFrom ps (origins TrimSpace fs fuel path)
    /\ (exists (k : nat) (fis : list FileInfo),
           fuel = S k
           /\ ReadDir fs (Join fs path) = inl fis
           /\ Forall (fun fi =>
                        exists sub l',
                          readPatterns TrimSpace fs k (path ++ [Name fi])
                          = Some ((sub, None), l'))
                     (filter (fun fi => IsDir fi
                                        && negb (String.eqb (Name fi) ".git"))
                             fis)
           /\ origins TrimSpace fs fuel path
              = flat_map (fileOrigins TrimSpace fs path) defaultIgnoreFiles
                ++ flat_map
                     (fun fi => origins TrimSpace fs k (path ++ [Name fi]))
                     (filter (fun fi => IsDir fi
                                        && negb (String.eqb (Name fi) ".git"))
                             fis))
    /\ Forall (fun o => exists rest, originDir o = path ++ rest)
              (origins TrimSpace fs fuel path)
    /\ (forall (i j : nat) (o1 o2 : Origin),
           nth_error (origins TrimSpace fs fuel path) i = Some o1 ->
           nth_error (origins TrimSpace fs fuel path) j = Some o2 ->
           strictAncestor (originDir o1) (originDir o2) -> i < j)
    /\ (forall fuel', fuel <= fuel' ->
           readPatterns TrimSpace fs fuel' path = Some ((ps, None), l)).
Proof.
  intros TrimSpace fs fuel path ps l Hnd H.
  split; [reflexivity|].
  split.
  { rewrite (readPatterns_origins TrimSpace fs fuel path ps l H).
    apply patternOf_compiledFrom. }
  split; [exact (origins_unfold TrimSpace fs fuel path ps l H)|].
  destruct (origins_sorted TrimSpace fs Hnd fuel path ps l H) as [Hd Hs].
  split; [exact Hd|]. split; [exact Hs|].
  intros fuel' Hle.
  exact (readPatterns_mono TrimSpace fs fuel path _ H fuel' Hle).
Qed.

Lemma projectTree_distinctListings : distinctListings projectTree.
Proof.
  intros q fis. simpl.
  destruct (String.eqb _ ""); [|destruct (String.eqb _ "src")];
    intros [= <-]; simpl; repeat constructor; simpl; intuition discriminate.
Qed.

Lemma readPatterns_ancestors_first_witness :
  (exists l, readPatterns trimBlanks projectTree 3 []
             = Some ((projectPatterns, None), l))
  /\ origins trimBlanks projectTree 3 []
     = [mkOrigin [] ".gitignore" "*.log";
        mkOrigin [] ".gitignore" "!keep.log";
        mkOrigin ["src"] ".gitignore" "tmp/";
        mkOrigin ["src"; "lib"] ".wokeignore" "gen/*"]
  /\ Forall2 compiledFrom projectPatterns (origins trimBlanks projectTree 3 [])
  /\ (forall (i j : nat) (o1 o2 : Origin),
         nth_error (origins trimBlanks projectTree 3 []) i = Some o1 ->
         nth_error (origins trimBlanks projectTree 3 []) j = Some o2 ->
         strictAncestor (originDir o1) (originDir o2) -> i < j).
Proof.
  assert (H : {l | readPatterns trimBlanks projectTree 3 []
                   = Some ((projectPatterns, None), l)}).
  { eexists. vm_compute. reflexivity. }
  destruct H as [l Hl].
  split; [now exists l|]. split; [reflexivity|].
  pose proof (readPatterns_ancestors_first trimBlanks projectTree 3 []
                projectPatterns l projectTree_distinctListings Hl)
    as (_ & H2 & _ & _ & H5 & _).
  split; [exact H2 | exact H5].
Defined.

End CollectorClaims.

(* ================================================================== *)
(** * Part III.  Further properties of the code *)
(* ================================================================== *)

(** ** Merging and removing rules *)

Section MergeFacts.
Import rule config vocabulary samples.

Lemma inExistingRules_extended (c : Config) (added : list Rule) (r : Rule) :
  inExistingRules c r = true ->
  inExistingRules (setRules c (Rules c ++ added)) r = true.
Proof. intros H. rewrite inExistingRules_app, H. reflexivity. Qed.

Lemma inExistingRules_appendDefaults_mono (D : list Rule) :
  forall (c : Config) (r : Rule),
    inExistingRules c r = true ->
    inExistingRules (appendDefaults D c) r = true.
Proof.
  unfold appendDefaults.
  induction D as [|d D IH]; intros c r H; simpl; [exact H|].
  destruct (inExistingRules c d); simpl; apply IH; [exact H|].
  now apply inExistingRules_extended.
Qed.

Lemma appendDefaults_covers (D : list Rule) :
  forall (c : Config) (d : Rule),
    In d D -> inExistingRules (appendDefaults D c) d = true.
Proof.
  induction D as [|d0 D IH]; intros c d Hin; [contradiction|].
  destruct Hin as [<-|Hin].
  - unfold appendDefaults. simpl. fold (appendDefaults D).
    destruct (inExistingRules c d0) eqn:E; simpl.
    + now apply inExistingRules_appendDefaults_mono.
    + apply inExistingRules_appendDefaults_mono.
      rewrite inExistingRules_app. simpl.
      rewrite String.eqb_refl. now rewrite orb_true_r.
  - unfold appendDefaults. simpl. fold (appendDefaults D).
    destruct (inExistingRules c d0); now apply IH.
Qed.

Lemma appendDefaults_nothing_to_add (D : list Rule) (c : Config) :
  (forall d, In d D -> inExistingRules c d = true) ->
  appendDefaults D c = c.
Proof.
  unfold appendDefaults.
  induction D as [|d D IH]; intros H; simpl; [reflexivity|].
  rewrite (H d (or_introl eq_refl)). simpl.
  apply IH. intros d' Hd'. apply H. now right.
Qed.

(** X1.  Merging the defaults a second time changes nothing: after the
    merge loop every default name is taken, so a second pass appends no
    rule. *)
Theorem appendDefaults_idempotent :
  forall (DefaultRules : list Rule) (c : Config),
    appendDefaults DefaultRules (appendDefaults DefaultRules c)
    = appendDefaults DefaultRules c.
Proof.
  intros D c. apply appendDefaults_nothing_to_add.
  intros d Hd. now apply appendDefaults_covers.
Qed.

Lemma appendDefaults_origin (D : list Rule) :
  forall (c : Config) (r : Rule),
    In r (Rules (appendDefaults D c)) -> In r (Rules c) \/ In r D.
Proof.
  unfold appendDefaults.
  induction D as [|d D IH]; intros c r H; simpl in H; [now left|].
  destruct (inExistingRules c d); simpl in H.
  - destruct (IH c r H); [now left | right; now right].
  - destruct (IH _ r H) as [H'|H']; [|right; now right].
    simpl in H'. apply in_app_or in H' as [H'|[<-|[]]];
      [now left | right; now left].
Qed.

(** X2.  After the merge loop every name of the default table is borne by
    some rule of the list, whatever the table and the config, and every
    rule of the list is a configured rule or a rule of the table. *)
Theorem appendDefaults_covers_default_names :
  forall (DefaultRules : list Rule) (c : Config),
    (forall d, In d DefaultRules ->
       exists n, In n (Rules (appendDefaults DefaultRules c))
                 /\ Name n = Name d)
    /\ (forall r, In r (Rules (appendDefaults DefaultRules c)) ->
          In r (Rules c) \/ In r DefaultRules).
Proof.
  intros D c. split.
  - intros d Hd. apply inExistingRules_true_iff.
    now apply appendDefaults_covers.
  - apply appendDefaults_origin.
Qed.

End MergeFacts.

Section RemoveRuleFacts.
Import rule config vocabulary samples.

Lemma RemoveRule_in_range (c : Config) (i : Z) :
  (0 <= i < Z.of_nat (List.length (Rules c)))%Z ->
  Rules (RemoveRule c i)
  = firstn (Z.to_nat i) (Rules c) ++ skipn (S (Z.to_nat i)) (Rules c).
Proof.
  intros Hi. unfold RemoveRule.
  destruct (i >=? _)%Z eqn:E1; [lia|].
  destruct (i <? 0)%Z eqn:E2; [lia|]. simpl.
  replace (Z.to_nat (i + 1)) with (S (Z.to_nat i)) by lia. reflexivity.
Qed.

Lemma RemoveRule_out_of_range (c : Config) (i : Z) :
  (i < 0 \/ Z.of_nat (List.length (Rules c)) <= i)%Z ->
  RemoveRule c i = c.
Proof.
  intros Hi. unfold RemoveRule.
  destruct (i >=? _)%Z eqn:E1; [reflexivity|].
  destruct (i <? 0)%Z eqn:E2; [reflexivity|]. lia.
Qed.

(** X3.  [RemoveRule] with an index inside the list removes exactly the
    rule at that index while maintaining order: the list gets one shorter,
    the rules before the index keep their place and the rules behind it
    move down by one.  With a negative index, or one at or past the end
    (every index, when the config has no rule), the config is left as it
    is. *)
Theorem RemoveRule_removes_exactly_index :
  forall (c : Config) (i : Z),
    ((0 <= i < Z.of_nat (List.length (Rules c)))%Z ->
     S (List.length (Rules (RemoveRule c i))) = List.length (Rules c)
     /\ (forall j : nat, (j < Z.to_nat i)%nat ->
           nth_error (Rules (RemoveRule c i)) j = nth_error (Rules c) j)
     /\ (forall j : nat, (Z.to_nat i <= j)%nat ->
           nth_error (Rules (RemoveRule c i)) j = nth_error (Rules c) (S j)))
    /\ ((i < 0 \/ Z.of_nat (List.length (Rules c)) <= i)%Z ->
        RemoveRule c i = c).
Proof.
  intros c i. split; [|apply RemoveRule_out_of_range].
  intros Hi. rewrite (RemoveRule_in_range c i Hi).
  set (n := Z.to_nat i). assert (Hn : (n < List.length (Rules c))%nat) by lia.
  assert (Hlen : List.length (firstn n (Rules c)) = n)
    by (rewrite length_firstn; lia).
  split; [|split].
  - rewrite length_app, Hlen, length_skipn. lia.
  - intros j Hj. rewrite nth_error_app1 by lia.
    now rewrite nth_error_firstn, (proj2 (Nat.ltb_lt j n) Hj).
  - intros j Hj. rewrite nth_error_app2 by lia.
    rewrite Hlen, nth_error_skipn. f_equal. lia.
Qed.

Lemma RemoveRule_removes_exactly_index_witness :
  (0 <= 1 < Z.of_nat (List.length (Rules twoExcluded)))%Z
  /\ Rules (RemoveRule twoExcluded 1) = [ruleA; ruleC]
  /\ S (List.length (Rules (RemoveRule twoExcluded 1)))
     = List.length (Rules twoExcluded)
  /\ RemoveRule twoExcluded 3 = twoExcluded
  /\ RemoveRule twoExcluded (-1) = twoExcluded
  /\ RemoveRule zeroConfig 0 = zeroConfig.
Proof.
  assert (H : (0 <= 1 < Z.of_nat (List.length (Rules twoExcluded)))%Z)
    by (simpl; lia).
  split; [exact H|]. split; [reflexivity|].
  split;
    [exact (proj1 (proj1 (RemoveRule_removes_exactly_index twoExcluded 1) H))|].
  split; [|split].
  - apply (proj2 (RemoveRule_removes_exactly_index twoExcluded 3)).
    right. simpl. lia.
  - apply (proj2 (RemoveRule_removes_exactly_index twoExcluded (-1))).
    left. lia.
  - apply (proj2 (RemoveRule_removes_exactly_index zeroConfig 0)).
    right. simpl. lia.
Defined.

End RemoveRuleFacts.

(** ** The whole of [ConfigureRules] *)

Section ConfigureRulesFacts.
Import rule config vocabulary samples.

(** What the loop over the rules returns: the excluded rules untouched, the
    others finalised, and the indices of the excluded ones. *)
Lemma RuleLoop_spec (c : Config) :
  forall (todo : list Rule) (i : Z) (done : list Rule) (ex : list Z),
    RuleLoop c i todo done ex
    = (done ++ map (fun r => if excluded (ExcludeCategories c) r then r
                             else finalize (IncludeNote c) r) todo,
       ex ++ indicesFrom (ExcludeCategories c) i todo).
Proof.
  induction todo as [|r rest IH]; intros i done ex.
  - simpl. now rewrite !app_nil_r.
  - cbn [RuleLoop map indicesFrom].
    fold (excluded (ExcludeCategories c) r).
    destruct (excluded (ExcludeCategories c) r);
      rewrite IH, <- !app_assoc; reflexivity.
Qed.

Lemma indicesFrom_length (ex : list string) :
  forall (rs : list Rule) (i : Z),
    List.length (indicesFrom ex i rs) = List.length (filter (excluded ex) rs).
Proof.
  induction rs as [|r rs IH]; intros i; simpl; [reflexivity|].
  destruct (excluded ex r); simpl; now rewrite IH.
Qed.

Lemma indicesFrom_none (ex : list string) :
  forall (rs : list Rule) (i : Z),
    Forall (fun r => excluded ex r = false) rs -> indicesFrom ex i rs = [].
Proof.
  induction rs as [|r rs IH]; intros i H; simpl; [reflexivity|].
  inversion H as [|x xs Hr Hrs]; subst. rewrite Hr. now apply IH.
Qed.

Lemma indicesFrom_app (ex : list string) :
  forall (l1 l2 : list Rule) (i : Z),
    indicesFrom ex i (l1 ++ l2)
    = indicesFrom ex i l1
      ++ indicesFrom ex (i + Z.of_nat (List.length l1)) l2.
Proof.
  induction l1 as [|r l1 IH]; intros l2 i.
  - simpl. now rewrite Z.add_0_r.
  - cbn [List.app indicesFrom List.length].
    replace (i + Z.of_nat (S (List.length l1)))%Z
      with (i + 1 + Z.of_nat (List.length l1))%Z by lia.
    destruct (excluded ex r); now rewrite IH.
Qed.

Lemma map_kept (ex : list string) (note : bool) (rs : list Rule) :
  Forall (fun r => excluded ex r = false) rs ->
  map (fun r => if excluded ex r then r else finalize note r) rs
  = map (finalize note) rs.
Proof.
  intros H. apply map_ext_in. intros r Hr. rewrite Forall_forall in H.
  now rewrite (H r Hr).
Qed.

Lemma ruleAt_Some (c : Config) (i : Z) (r : Rule) :
  ruleAt c i = Some r -> (0 <= i < Z.of_nat (List.length (Rules c)))%Z.
Proof.
  unfold ruleAt. destruct (i <? 0)%Z eqn:E; [discriminate|].
  intros H. assert (nth_error (Rules c) (Z.to_nat i) <> None) by congruence.
  apply nth_error_Some in H0. lia.
Qed.

Lemma ruleAt_None (c : Config) (i : Z) :
  (Z.of_nat (List.length (Rules c)) <= i)%Z -> ruleAt c i = None.
Proof.
  intros H. unfold ruleAt. destruct (i <? 0)%Z; [reflexivity|].
  apply nth_error_None. lia.
Qed.

Lemma RemoveRule_fields (c : Config) (i : Z) :
  IgnoreFiles (RemoveRule c i) = IgnoreFiles c
  /\ SuccessExitMessage (RemoveRule c i) = SuccessExitMessage c
  /\ IncludeNote (RemoveRule c i) = IncludeNote c
  /\ ExcludeCategories (RemoveRule c i) = ExcludeCategories c.
Proof. unfold RemoveRule. destruct (_ || _)%bool; simpl; tauto. Qed.

Lemma removeExcluded_shape :
  forall (idx : list Z) (c c' : Config),
    removeExcluded c idx = Some c' ->
    (List.length (Rules c') + List.length idx = List.length (Rules c))%nat
    /\ IgnoreFiles c' = IgnoreFiles c
    /\ SuccessExitMessage c' = SuccessExitMessage c
    /\ IncludeNote c' = IncludeNote c
    /\ ExcludeCategories c' = ExcludeCategories c.
Proof.
  induction idx as [|i idx IH]; intros c c' H; simpl in H.
  - injection H as <-. simpl. repeat split. lia.
  - destruct (ruleAt c i) as [r|] eqn:E; [|discriminate].
    apply ruleAt_Some in E.
    apply IH in H as (Hlen & H1 & H2 & H3 & H4).
    assert (Hl : S (List.length (Rules (RemoveRule c i)))
                 = List.length (Rules c)).
    { rewrite (RemoveRule_in_range c i E), length_app, length_firstn,
        length_skipn. lia. }
    destruct (RemoveRule_fields c i) as (F1 & F2 & F3 & F4).
    simpl. repeat split; try congruence. lia.
Qed.

Lemma removeExcluded_app :
  forall (a b : list Z) (c : Config),
    removeExcluded c (a ++ b)
    = match removeExcluded c a with
      | None => None
      | Some c' => removeExcluded c' b
      end.
Proof.
  induction a as [|i a IH]; intros b c; simpl; [reflexivity|].
  destruct (ruleAt c i); [apply IH | reflexivity].
Qed.

(** [ConfigureRules] in terms of the merged list. *)
Lemma ConfigureRules_unfold (D : list Rule) (c : Config) :
  let c1 := appendDefaults D c in
  ConfigureRules D c
  = removeExcluded
      (setRules c1
         (map (fun r => if excluded (ExcludeCategories c) r then r
                        else finalize (IncludeNote c) r) (Rules c1)))
      (indicesFrom (ExcludeCategories c) 0 (Rules c1)).
Proof.
  intros c1. unfold ConfigureRules. fold c1.
  rewrite RuleLoop_spec. simpl.
  destruct (appendDefaults_fields D c) as (_ & _ & Hn & He).
  fold c1 in Hn, He. now rewrite Hn, He.
Qed.

End ConfigureRulesFacts.

Section ConfigureRulesExtras.
Import rule config vocabulary samples.

(** X4.  Whenever [ConfigureRules] returns, it has removed exactly as many
    rules from the merged list as have an excluded category, and it has
    left the ignore files, the success message, the note flag and the
    exclusion list of the config as they were. *)
Theorem ConfigureRules_removes_as_many_as_excluded :
  forall (DefaultRules : list Rule) (c c' : Config),
    ConfigureRules DefaultRules c = Some c' ->
    (List.length (Rules c')
     + List.length (filter (excluded (ExcludeCategories c))
                           (Rules (appendDefaults DefaultRules c)))
     = List.length (Rules (appendDefaults DefaultRules c)))%nat
    /\ IgnoreFiles c' = IgnoreFiles c
    /\ SuccessExitMessage c' = SuccessExitMessage c
    /\ IncludeNote c' = IncludeNote c
    /\ ExcludeCategories c' = ExcludeCategories c.
Proof.
  intros D c c' H. rewrite ConfigureRules_unfold in H.
  apply removeExcluded_shape in H as (Hlen & H1 & H2 & H3 & H4).
  simpl in *. rewrite length_map, indicesFrom_length in Hlen.
  destruct (appendDefaults_fields D c) as (F1 & F2 & F3 & F4).
  repeat split; first [exact Hlen | congruence].
Qed.

Lemma ConfigureRules_removes_as_many_as_excluded_witness :
  exists c' : Config,
    ConfigureRules sampleDefaults oneExcluded = Some c'
    /\ names (Rules c') = ["rule-c"; "rule-e"; "rule-b"; "rule-d"]
    /\ (List.length (Rules c')
        + List.length (filter (excluded (ExcludeCategories oneExcluded))
                              (Rules (appendDefaults sampleDefaults
                                                     oneExcluded)))
        = List.length (Rules (appendDefaults sampleDefaults oneExcluded)))%nat
    /\ IgnoreFiles c' = ["vendor"].
Proof.
  eexists. split; [reflexivity|]. split; [reflexivity|].
  split; [|reflexivity].
  exact (proj1 (ConfigureRules_removes_as_many_as_excluded
                  sampleDefaults oneExcluded _ eq_refl)).
Defined.

(** X5.  When no rule of the merged list has an excluded category (as when
    the exclusion list is empty), [ConfigureRules] returns normally and the
    rule list is the merged list, every rule finalised, in order. *)
Theorem ConfigureRules_nothing_excluded :
  forall (DefaultRules : list Rule) (c : Config),
    Forall (fun r => excluded (ExcludeCategories c) r = false)
           (Rules (appendDefaults DefaultRules c)) ->
    ConfigureRules DefaultRules c
    = Some (setRules (appendDefaults DefaultRules c)
              (map (finalize (IncludeNote c))
                   (Rules (appendDefaults DefaultRules c)))).
Proof.
  intros D c H. rewrite ConfigureRules_unfold. cbv zeta.
  rewrite (indicesFrom_none _ _ 0%Z H), (map_kept _ _ _ H). reflexivity.
Qed.

Lemma ConfigureRules_nothing_excluded_witness :
  Forall (fun r => excluded (ExcludeCategories oneRule) r = false)
         (Rules (appendDefaults sampleDefaults oneRule))
  /\ option_map Rules (ConfigureRules sampleDefaults oneRule)
     = Some [finalize true (plainRule "rule-b" ["user"]);
             finalize true (plainRule "rule-d" [])].
Proof.
  assert (H : Forall (fun r => excluded (ExcludeCategories oneRule) r = false)
                     (Rules (appendDefaults sampleDefaults oneRule)))
    by (repeat constructor).
  split; [exact H|].
  now rewrite (ConfigureRules_nothing_excluded sampleDefaults oneRule H).
Defined.

(** X6.  When exactly one rule of the merged list has an excluded
    category, [ConfigureRules] removes that rule and returns the others,
    finalised and in order. *)
Theorem ConfigureRules_one_excluded :
  forall (DefaultRules : list Rule) (c : Config) (before after : list Rule)
         (r : Rule),
    Rules (appendDefaults DefaultRules c) = before ++ r :: after ->
    excluded (ExcludeCategories c) r = true ->
    Forall (fun x => excluded (ExcludeCategories c) x = false) before ->
    Forall (fun x => excluded (ExcludeCategories c) x = false) after ->
    ConfigureRules DefaultRules c
    = Some (setRules (appendDefaults DefaultRules c)
              (map (finalize (IncludeNote c)) before
               ++ map (finalize (IncludeNote c)) after)).
Proof.
  intros D c before after r Hm Hr Hb Ha.
  rewrite ConfigureRules_unfold. cbv zeta. rewrite Hm.
  rewrite indicesFrom_app, (indicesFrom_none _ _ _ Hb).
  cbn [indicesFrom List.app]. rewrite Hr, (indicesFrom_none _ _ _ Ha).
  rewrite map_app. cbn [map]. rewrite Hr.
  rewrite (map_kept _ _ _ Hb), (map_kept _ _ _ Ha).
  set (n := List.length before).
  set (fb := map (finalize (IncludeNote c)) before).
  set (fa := map (finalize (IncludeNote c)) after).
  assert (Hfb : List.length fb = n) by (unfold fb; apply length_map).
  cbn [removeExcluded].
  assert (Hat : ruleAt (setRules (appendDefaults D c) (fb ++ r :: fa))
                       (0 + Z.of_nat n) = Some r).
  { unfold ruleAt. destruct (_ <? 0)%Z eqn:E; [lia|]. simpl Rules.
    replace (Z.to_nat (0 + Z.of_nat n)) with n by lia.
    rewrite nth_error_app2 by lia. rewrite Hfb, Nat.sub_diag. reflexivity. }
  rewrite Hat. f_equal.
  unfold RemoveRule. simpl Rules. rewrite length_app, Hfb. simpl List.length.
  destruct (_ || _)%bool eqn:E.
  - exfalso. apply orb_true_iff in E as [E|E].
    + apply Z.geb_le in E. lia.
    + apply Z.ltb_lt in E. lia.
  - unfold setRules. simpl. f_equal.
    replace (Z.to_nat (Z.of_nat n)) with n by lia.
    replace (Z.to_nat (Z.of_nat n + 1)) with (S n) by lia.
    rewrite firstn_app, skipn_app, Hfb.
    rewrite firstn_all2 by lia. rewrite skipn_all2 by lia.
    replace (n - n)%nat with 0%nat by lia.
    replace (S n - n)%nat with 1%nat by lia. simpl.
    rewrite ?app_nil_r. reflexivity.
Qed.

Lemma ConfigureRules_one_excluded_witness :
  Rules (appendDefaults sampleDefaults oneExcluded)
  = [ruleC] ++ ruleA :: [plainRule "rule-e" ["other"];
                         plainRule "rule-b" []; plainRule "rule-d" []]
  /\ option_map Rules (ConfigureRules sampleDefaults oneExcluded)
     = Some [finalize true ruleC;
             finalize true (plainRule "rule-e" ["other"]);
             finalize true (plainRule "rule-b" []);
             finalize true (plainRule "rule-d" [])].
Proof.
  split; [reflexivity|].
  rewrite (ConfigureRules_one_excluded sampleDefaults oneExcluded
             [ruleC] [plainRule "rule-e" ["other"];
                      plainRule "rule-b" []; plainRule "rule-d" []]
             ruleA eq_refl eq_refl).
  - reflexivity.
  - repeat constructor.
  - repeat constructor.
Defined.

(** X7.  When the last rule of the merged list has an excluded category
    and so has some rule before it, [ConfigureRules] panics: by the time
    the last collected index is used, earlier removals have made the list
    too short for it. *)
Theorem ConfigureRules_panics_on_excluded_last :
  forall (DefaultRules : list Rule) (c : Config) (before : list Rule)
         (r : Rule),
    Rules (appendDefaults DefaultRules c) = before ++ [r] ->
    excluded (ExcludeCategories c) r = true ->
    Exists (fun x => excluded (ExcludeCategories c) x = true) before ->
    ConfigureRules DefaultRules c = None.
Proof.
  intros D c before r Hm Hr Hex.
  rewrite ConfigureRules_unfold. cbv zeta. rewrite Hm.
  rewrite indicesFrom_app. cbn [indicesFrom]. rewrite Hr.
  rewrite removeExcluded_app.
  destruct (removeExcluded _ (indicesFrom _ 0 before)) as [c'|] eqn:E;
    [|reflexivity].
  apply removeExcluded_shape in E as (Hlen & _).
  simpl Rules in Hlen. rewrite length_map, length_app in Hlen.
  simpl List.length in Hlen. rewrite indicesFrom_length in Hlen.
  assert (Hpos : (0 < List.length
                        (filter (excluded (ExcludeCategories c)) before))%nat).
  { apply Exists_exists in Hex as (x & Hx & Hxe).
    assert (Hin : In x (filter (excluded (ExcludeCategories c)) before))
      by (apply filter_In; now split).
    destruct (filter _ before); [contradiction | simpl; lia]. }
  cbn [removeExcluded]. rewrite ruleAt_None; [reflexivity | lia].
Qed.

Lemma ConfigureRules_panics_on_excluded_last_witness :
  Rules (appendDefaults [] excludedAtEnd) = [ruleC; ruleA] ++ [ruleB]
  /\ ConfigureRules [] excludedAtEnd = None.
Proof.
  split; [reflexivity|].
  apply (ConfigureRules_panics_on_excluded_last [] excludedAtEnd
           [ruleC; ruleA] ruleB eq_refl eq_refl).
  apply Exists_cons_tl, Exists_cons_hd. reflexivity.
Defined.

End ConfigureRulesExtras.

(** ** [NewConfig] *)

Section NewConfigExtras.
Import rule config vocabulary samples.

Lemma ConfigureRules_returns_shape (D : list Rule) (c c' : Config) :
  ConfigureRules D c = Some c' ->
  (List.length (Rules c')
   + List.length (filter (excluded (ExcludeCategories c))
                         (Rules (appendDefaults D c)))
   = List.length (Rules (appendDefaults D c)))%nat
  /\ IgnoreFiles c' = IgnoreFiles c
  /\ SuccessExitMessage c' = SuccessExitMessage c
  /\ IncludeNote c' = IncludeNote c
  /\ ExcludeCategories c' = ExcludeCategories c.
Proof.
  intros H. rewrite ConfigureRules_unfold in H.
  apply removeExcluded_shape in H as (Hlen & H1 & H2 & H3 & H4).
  simpl in *. rewrite length_map, indicesFrom_length in Hlen.
  destruct (appendDefaults_fields D c) as (F1 & F2 & F3 & F4).
  repeat split; first [exact Hlen | congruence].
Qed.

Lemma ConfigureRules_all_kept (D : list Rule) (c : Config) :
  Forall (fun r => excluded (ExcludeCategories c) r = false)
         (Rules (appendDefaults D c)) ->
  ConfigureRules D c
  = Some (setRules (appendDefaults D c)
            (map (finalize (IncludeNote c)) (Rules (appendDefaults D c)))).
Proof.
  intros H. rewrite ConfigureRules_unfold. cbv zeta.
  rewrite (indicesFrom_none _ _ 0%Z H), (map_kept _ _ _ H). reflexivity.
Qed.

Lemma appendDefaults_zeroConfig (D : list Rule) :
  NoDup (names D) -> Rules (appendDefaults D zeroConfig) = D.
Proof.
  intros Hnd. rewrite (appendDefaults_filter D Hnd zeroConfig). simpl.
  clear Hnd. induction D as [|d D IH]; simpl; [reflexivity|].
  now f_equal.
Qed.

(** X8.  Without a config file (an empty file name) [NewConfig] reads
    nothing, cannot fail and does not panic: for a default table with
    pairwise distinct names it returns the config whose rules are the
    defaults, each finalised with the note flag off, and whose other
    fields are zero. *)
Theorem NewConfig_without_file :
  forall (error : Type) (DefaultRules : list Rule)
         (ioutil_ReadFile : string -> string + error)
         (yaml_Unmarshal : string -> Config -> Config * option error)
         (filepath_IsAbs : string -> bool) (os_Getwd : string * option error)
         (filepath_Rel : string -> string -> string + error),
    NoDup (names DefaultRules) ->
    NewConfig error DefaultRules ioutil_ReadFile yaml_Unmarshal filepath_IsAbs
              os_Getwd filepath_Rel ""
    = Some (inl (mkConfig (map (finalize false) DefaultRules)
                          [] None false [])).
Proof.
  intros error D rf um ia gw rel Hnd. unfold NewConfig. simpl.
  rewrite ConfigureRules_all_kept.
  - rewrite (appendDefaults_zeroConfig D Hnd).
    destruct (appendDefaults_fields D zeroConfig) as (F1 & F2 & F3 & F4).
    unfold setRules. rewrite F1, F2, F3, F4. reflexivity.
  - apply Forall_forall. intros r _. reflexivity.
Qed.

Lemma NewConfig_without_file_witness :
  NoDup (names sampleDefaults)
  /\ NewConfig string sampleDefaults readSample unmarshalSample isAbsSample
               ("/home/u/proj", None) relSample ""
     = Some (inl (mkConfig [finalize false (plainRule "rule-b" []);
                            finalize false (plainRule "rule-d" [])]
                           [] None false [])).
Proof.
  assert (H : NoDup (names sampleDefaults)).
  { repeat constructor; simpl; intuition discriminate. }
  split; [exact H|].
  exact (NewConfig_without_file string sampleDefaults readSample
           unmarshalSample isAbsSample ("/home/u/proj", None) relSample H).
Defined.

(** X9.  With a config file, [NewConfig] returns an error exactly when
    loading the file does, and it is that error.  When it returns a
    config, loading succeeded, the ignore files are those of the loaded
    config followed by the path of the config file itself (relative to the
    current directory when that can be computed), and the success message,
    the note flag and the exclusion list are the loaded ones. *)
Theorem NewConfig_ignores_its_own_file :
  forall (error : Type) (DefaultRules : list Rule)
         (ioutil_ReadFile : string -> string + error)
         (yaml_Unmarshal : string -> Config -> Config * option error)
         (filepath_IsAbs : string -> bool) (os_Getwd : string * option error)
         (filepath_Rel : string -> string -> string + error)
         (filename : string),
    filename <> "" ->
    let loaded := loadConfig error ioutil_ReadFile yaml_Unmarshal filename in
    let result := NewConfig error DefaultRules ioutil_ReadFile yaml_Unmarshal
                            filepath_IsAbs os_Getwd filepath_Rel filename in
    (forall err, result = Some (inr err) <-> snd loaded = Some err)
    /\ (forall c', result = Some (inl c') ->
          snd loaded = None
          /\ IgnoreFiles c'
             = IgnoreFiles (fst loaded)
               ++ [relative error filepath_IsAbs os_Getwd filepath_Rel filename]
          /\ SuccessExitMessage c' = SuccessExitMessage (fst loaded)
          /\ IncludeNote c' = IncludeNote (fst loaded)
          /\ ExcludeCategories c' = ExcludeCategories (fst loaded)).
Proof.
  intros error D rf um ia gw rel filename Hne loaded result.
  subst result. unfold NewConfig. fold loaded.
  assert (Hlen : (0 <? String.length filename)%nat = true)
    by (destruct filename; [congruence | reflexivity]).
  rewrite Hlen. destruct loaded as [c [e|]]; simpl.
  - split.
    + intros err. split; intros H; injection H as ->; reflexivity.
    + intros c' H. discriminate.
  - split.
    + intros err. split; [|discriminate].
      destruct (ConfigureRules D _); discriminate.
    + intros c' H.
      destruct (ConfigureRules D _) as [c''|] eqn:E; [|discriminate].
      injection H as ->.
      apply ConfigureRules_returns_shape in E
        as (_ & F1 & F2 & F3 & F4).
      simpl in *. repeat split; assumption.
Qed.

Lemma NewConfig_ignores_its_own_file_witness :
  "/home/u/proj/woke.yaml" <> ""
  /\ (exists c',
         NewConfig string sampleDefaults readSample unmarshalSample isAbsSample
                   ("/home/u/proj", None) relSample "/home/u/proj/woke.yaml"
         = Some (inl c')
         /\ IgnoreFiles c' = ["vendor"; "woke.yaml"]
         /\ SuccessExitMessage c' = Some "clean")
  /\ NewConfig string sampleDefaults readSample unmarshalSample isAbsSample
               ("/home/u/proj", None) relSample "broken.yaml"
     = Some (inr "yaml: did not find expected node content")
  /\ NewConfig string sampleDefaults readSample unmarshalSample isAbsSample
               ("/home/u/proj", None) relSample "absent.yaml"
     = Some (inr "no such file").
Proof.
  assert (H : "/home/u/proj/woke.yaml" <> "") by discriminate.
  split; [exact H|]. split; [|split; reflexivity].
  eexists. split; [reflexivity|].
  pose proof (NewConfig_ignores_its_own_file string sampleDefaults readSample
                unmarshalSample isAbsSample ("/home/u/proj", None) relSample
                "/home/u/proj/woke.yaml" H) as T.
  cbv zeta in T. destruct T as [_ T].
  destruct (T _ eq_refl) as (_ & T1 & T2 & _).
  split; [exact T1 | exact T2].
Defined.

End NewConfigExtras.

(** ** Locating the git root: the nearest .git *)

Section RootExtras.
Import ignore vocabulary samples.

(** X10.  When the absolute form [dir] of the working directory can be
    computed and the nearest directory with a .git entry is [n] steps up
    from [dir] (no directory before it has one, and none of them is the
    root), [GetRootGitDir] returns the filesystem rooted at that directory,
    for every budget of more than [n] rounds: the walk stops at the first
    .git it meets. *)
Theorem GetRootGitDir_nearest_git :
  forall (os_Stat : string -> bool) (filepath_Join : list string -> string)
         (filepath_Dir : string -> string) (osfs_New : string -> Filesystem)
         (iFactory : IgnoreFactory) (workingDir dir : string) (n : nat),
    filepathAbs iFactory workingDir = inl dir ->
    (forall k, k < n ->
       os_Stat (filepath_Join [Nat.iter k filepath_Dir dir; ".git"]) = false) ->
    (forall k, k < n ->
       filepath_Dir (Nat.iter k filepath_Dir dir)
       <> Nat.iter k filepath_Dir dir) ->
    os_Stat (filepath_Join [Nat.iter n filepath_Dir dir; ".git"]) = true ->
    forall fuel, n < fuel ->
      GetRootGitDir os_Stat filepath_Join filepath_Dir osfs_New iFactory fuel
                    workingDir
      = Some (inl (osfs_New (Nat.iter n filepath_Dir dir))).
Proof.
  intros os_Stat filepath_Join filepath_Dir osfs_New iFactory workingDir dir n
         Habs Hstat Hmove Hgit fuel Hfuel.
  unfold GetRootGitDir. rewrite Habs.
  now rewrite (climb_found os_Stat filepath_Join filepath_Dir osfs_New
                 workingDir n dir Hstat Hmove Hgit fuel Hfuel).
Qed.

Lemma GetRootGitDir_nearest_git_witness :
  GetRootGitDir gitAtHomeU (String.concat "/") parentOf rootedAt resolving
                2 "proj"
  = Some (inl (rootedAt "/home/u")).
Proof.
  refine (GetRootGitDir_nearest_git gitAtHomeU (String.concat "/") parentOf
            rootedAt resolving "proj" "/home/u/proj" 1 eq_refl _ _ eq_refl
            2 (Nat.lt_succ_diag_r 1)).
  - intros k Hk. destruct k as [|k]; [reflexivity | lia].
  - intros k Hk. destruct k as [|k]; [discriminate | lia].
Defined.

End RootExtras.

(** ** Reading one ignore file *)

Section ReadFileExtras.
Import strings gitignore ignore vocabulary samples.

(** X11.  When the ignore file opens, [readIgnoreFile] returns no error and
    logs nothing; the patterns are those of the lines that neither start
    with the comment prefix nor are blank, in line order, one pattern per
    line, each scoped to the directory of the file. *)
Theorem readIgnoreFile_keeps_pattern_lines :
  forall (TrimSpace : string -> string) (fs : Filesystem)
         (path : list string) (ignoreFile : string) (f : File),
    Open fs (Join fs (path ++ [ignoreFile])) = inl f ->
    let kept :=
      filter (fun s => negb (HasPrefix s "#")
                       && (0 <? String.length (TrimSpace s))%nat) f in
    readIgnoreFile TrimSpace fs path ignoreFile
    = Some ((map (fun s => ParsePattern s path) kept, None), [])
    /\ Forall (fun s => HasPrefix s "#" = false /\ TrimSpace s <> "") kept
    /\ (List.length kept <= List.length f)%nat
    /\ Forall (fun p => domain p = path)
              (map (fun s => ParsePattern s path) kept).
Proof.
  intros TrimSpace fs path ignoreFile f Hopen kept.
  split; [exact (readIgnoreFile_opened TrimSpace fs path ignoreFile f Hopen)|].
  split; [|split].
  - apply Forall_forall. intros s Hs. apply filter_In in Hs as [_ Hs].
    apply andb_true_iff in Hs as [H1 H2].
    split; [now apply negb_true_iff in H1|].
    intros E. rewrite E in H2. discriminate.
  - apply filter_length_le.
  - apply Forall_forall. intros p Hp.
    apply in_map_iff in Hp as (s & <- & _). reflexivity.
Qed.

Lemma readIgnoreFile_keeps_pattern_lines_witness :
  Open projectTree (Join projectTree ([] ++ [".gitignore"]))
  = inl ["# build output"; "*.log"; "  "; "!keep.log"]
  /\ readIgnoreFile trimBlanks projectTree [] ".gitignore"
     = Some (([ParsePattern "*.log" []; ParsePattern "!keep.log" []], None),
             []).
Proof.
  split; [reflexivity|].
  exact (proj1 (readIgnoreFile_keeps_pattern_lines trimBlanks projectTree []
                  ".gitignore" _ eq_refl)).
Defined.

End ReadFileExtras.

(** ** What the collector returns, with or without an error *)

Section CollectorReturns.
Import strings gitignore ignore vocabulary samples.

Variable TrimSpace : string -> string.
Variable fs : Filesystem.






End CollectorReturns.

Section CollectorExtras.
Import strings gitignore ignore vocabulary samples.






(** X13.  On a tree in which every chain of subdirectories that the
    collector follows from the start directory ends in fewer than [n]
    steps, [readPatterns] returns, and it returns the same result for
    every recursion budget of at least [n]. *)
Theorem readPatterns_returns_on_bounded_tree :
  forall (TrimSpace : string -> string) (fs : Filesystem) (n : nat)
         (path : list string),
    depthBelow fs n path ->
    exists r, forall fuel, n <= fuel ->
                readPatterns TrimSpace fs fuel path = Some r.
Proof.
  intros TrimSpace fs n path Hd.
  destruct (readPatterns_returns TrimSpace fs n path Hd) as [r Hr].
  exists r. intros fuel Hle.
  exact (readPatterns_mono TrimSpace fs n path r Hr fuel Hle).
Qed.

Lemma projectTree_depth : depthBelow projectTree 3 [].
Proof.
  simpl. intros fis E fi Hin W. injection E as <-.
  simpl in Hin. destruct Hin as [<-|[<-|[<-|[<-|[]]]]];
    try discriminate W.
  - intros fis E fi Hin _. injection E as <-.
    simpl in Hin. destruct Hin as [<-|[<-|[]]].
    + intros fis E fi Hin _. injection E as <-. contradiction.
    + intros fis E fi Hin _. injection E as <-. contradiction.
  - intros fis E fi Hin _. injection E as <-. contradiction.
Qed.

Lemma readPatterns_returns_on_bounded_tree_witness :
  depthBelow projectTree 3 []
  /\ exists r, forall fuel, 3 <= fuel ->
                 readPatterns trimBlanks projectTree fuel [] = Some r.
Proof.
  split; [exact projectTree_depth|].
  exact (readPatterns_returns_on_bounded_tree trimBlanks projectTree 3 []
           projectTree_depth).
Defined.

End CollectorExtras.

(** ** The domain: joining and resolving *)

Section DomainExtras.
Import strings util gitignore ignore vocabulary samples.

Lemma HasPrefix_app (a b : string) : HasPrefix (a ++ b) a = true.
Proof.
  induction a as [|c a IH]; simpl; [reflexivity|].
  now rewrite Ascii.eqb_refl.
Qed.

Lemma slash_free_cons (c : ascii) (s : string) :
  Index (String c s) "/" = None ->
  Ascii.eqb c "/" = false /\ Index s "/" = None.
Proof.
  rewrite Index_slash_cons. destruct (Ascii.eqb c "/"); [discriminate|].
  destruct (Index s "/"); [discriminate | auto].
Qed.

(** Reading a run without separator extends the run read so far. *)
Lemma segmentsFrom_run (seg rest : string) :
  Index seg "/" = None ->
  forall cur, segmentsFrom cur (seg ++ rest) = segmentsFrom (cur ++ seg) rest.
Proof.
  induction seg as [|c seg IH]; intros Hfree cur.
  - simpl. now rewrite append_empty_r.
  - apply slash_free_cons in Hfree as [Hc Hfree].
    simpl. rewrite Hc, (IH Hfree).
    now rewrite append_assoc.
Qed.

Lemma segmentsOf_concat (segs : list string) :
  Forall (fun seg => seg <> "" /\ Index seg "/" = None) segs ->
  segmentsOf (String.concat "/" segs) = segs.
Proof.
  unfold segmentsOf.
  induction 1 as [|seg segs [Hne Hfree] Hrest IH]; [reflexivity|].
  destruct segs as [|seg' segs].
  - simpl. rewrite <- (append_empty_r seg) at 1.
    rewrite (segmentsFrom_run seg "" Hfree ""). simpl.
    destruct (String.eqb_spec seg ""); [contradiction | reflexivity].
  - change (String.concat "/" (seg :: seg' :: segs))
      with (seg ++ "/" ++ String.concat "/" (seg' :: segs))%string.
    rewrite (segmentsFrom_run seg _ Hfree ""). simpl.
    destruct (String.eqb_spec seg ""); [contradiction|].
    f_equal. exact IH.
Qed.

(** X14.  Joining non-empty, separator-free segments with the path
    separator under a git root and resolving the domain of the result
    gives the segments back, whether or not the git root is written with
    a separator at its end. *)
Theorem getDomainFromWorkingDir_of_joined_path :
  forall (gitRoot : string) (segs : list string),
    Forall (fun seg => seg <> "" /\ Index seg PathSeparator = None) segs ->
    getDomainFromWorkingDir
      (rooted gitRoot ++ String.concat PathSeparator segs) gitRoot
    = segs.
Proof.
  intros gitRoot segs H.
  rewrite getDomainFromWorkingDir_unfold.
  rewrite (Index_prefix _ _ (HasPrefix_app (rooted gitRoot) _)).
  simpl Nat.add. rewrite drop_append, FilterEmptyStrings_Split.
  now apply segmentsOf_concat.
Qed.

Lemma getDomainFromWorkingDir_of_joined_path_witness :
  getDomainFromWorkingDir "/root/proj/pkg/ignore/testdata" "/root/proj"
  = ["pkg"; "ignore"; "testdata"]
  /\ getDomainFromWorkingDir "/root/proj/pkg/ignore/testdata" "/root/proj/"
     = ["pkg"; "ignore"; "testdata"].
Proof.
  assert (H : Forall (fun seg => seg <> "" /\ Index seg PathSeparator = None)
                     ["pkg"; "ignore"; "testdata"]).
  { repeat constructor; discriminate. }
  split.
  - exact (getDomainFromWorkingDir_of_joined_path "/root/proj" _ H).
  - exact (getDomainFromWorkingDir_of_joined_path "/root/proj/" _ H).
Defined.

Lemma fold_left_append_patterns (dom : list string) :
  forall (lines : list string) (ps : list Pattern),
    fold_left (fun ps line => ps ++ [ParsePattern line dom]) lines ps
    = ps ++ map (fun line => ParsePattern line dom) lines.
Proof.
  induction lines as [|line lines IH]; intros ps; simpl.
  - now rewrite app_nil_r.
  - rewrite IH, <- app_assoc. reflexivity.
Qed.

(** X15.  [NewIgnore] fails exactly when the working directory cannot be
    obtained or the on-disk patterns cannot be read, with that error.
    Otherwise the matcher is compiled from the on-disk patterns followed
    by one pattern per given line, in order, each scoped to the domain of
    the working directory under the root of the filesystem; so a line
    given last decides for every path its pattern matches, and the other
    paths are decided as without it. *)
Theorem NewIgnore_lines_after_disk_patterns :
  forall (ReadPatterns : Filesystem -> list string -> list string ->
                         list Pattern * option error)
         (iFactory : IgnoreFactory) (filesystem : Filesystem)
         (lines : list string),
    NewIgnore ReadPatterns iFactory filesystem lines
    = match osGetwd iFactory tt with
      | inr err => inr err
      | inl cwd =>
          match ReadPatterns filesystem [] defaultIgnoreFiles with
          | (_, Some err) => inr err
          | (ps, None) =>
              inl (mkIgnore
                     (NewMatcher
                        (ps ++ map (fun line =>
                                      ParsePattern line
                                        (getDomainFromWorkingDir
                                           cwd (Root filesystem)))
                                   lines)))
          end
      end
    /\ (forall (line : string) (i : Ignore),
           NewIgnore ReadPatterns iFactory filesystem (lines ++ [line])
           = inl i ->
           exists (i0 : Ignore) (cwd : string),
             NewIgnore ReadPatterns iFactory filesystem lines = inl i0
             /\ osGetwd iFactory tt = inl cwd
             /\ forall (f : string) (isDir : bool),
                 Match i f isDir
                 = match patternMatch
                           (ParsePattern line
                              (getDomainFromWorkingDir cwd (Root filesystem)))
                           (segmentsOf f) isDir with
                   | NoMatch => Match i0 f isDir
                   | Exclude => true
                   | Include => false
                   end).
Proof.
  intros ReadPatterns iFactory filesystem lines.
  assert (Hshape : forall ls,
    NewIgnore ReadPatterns iFactory filesystem ls
    = match osGetwd iFactory tt with
      | inr err => inr err
      | inl cwd =>
          match ReadPatterns filesystem [] defaultIgnoreFiles with
          | (_, Some err) => inr err
          | (ps, None) =>
              inl (mkIgnore
                     (NewMatcher
                        (ps ++ map (fun line =>
                                      ParsePattern line
                                        (getDomainFromWorkingDir
                                           cwd (Root filesystem)))
                                   ls)))
          end
      end).
  { intros ls. unfold NewIgnore.
    destruct (osGetwd iFactory tt) as [cwd|e]; [|reflexivity].
    destruct (ReadPatterns filesystem [] defaultIgnoreFiles) as [ps [e|]];
      [reflexivity|].
    now rewrite fold_left_append_patterns. }
  split; [apply Hshape|].
  intros line i Hi. rewrite Hshape in Hi. rewrite Hshape.
  destruct (osGetwd iFactory tt) as [cwd|e]; [|discriminate].
  destruct (ReadPatterns filesystem [] defaultIgnoreFiles) as [ps [e|]];
    [discriminate|].
  injection Hi as <-. eexists. exists cwd.
  split; [reflexivity|]. split; [reflexivity|].
  intros f isDir. rewrite !Match_segmentsOf. cbn [matcher].
  rewrite map_app, app_assoc. cbn [map].
  apply NewMatcher_last.
Qed.

End DomainExtras.

(** ** What [GetRootGitDir] can return *)

Section RootInvariant.
Import ignore vocabulary samples.

Lemma climb_result (os_Stat : string -> bool)
      (filepath_Join : list string -> string)
      (filepath_Dir : string -> string) (osfs_New : string -> Filesystem)
      (workingDir : string) :
  forall (fuel : nat) (dir : string) (filesystem : Filesystem),
    climb os_Stat filepath_Join filepath_Dir osfs_New fuel workingDir dir
    = Some filesystem ->
    (exists k, filesystem = osfs_New (Nat.iter k filepath_Dir dir)
               /\ os_Stat (filepath_Join [Nat.iter k filepath_Dir dir; ".git"])
                  = true)
    \/ (filesystem = osfs_New workingDir
        /\ exists k,
             filepath_Dir (Nat.iter k filepath_Dir dir)
             = Nat.iter k filepath_Dir dir
             /\ forall j, j <= k ->
                  os_Stat (filepath_Join [Nat.iter j filepath_Dir dir; ".git"])
                  = false).
Proof.
  induction fuel as [|fuel IH]; intros dir filesystem H; [discriminate|].
  simpl in H.
  destruct (os_Stat (filepath_Join [dir; ".git"])) eqn:Hs.
  - injection H as <-. left. exists 0. now split.
  - destruct (String.eqb (filepath_Dir dir) dir) eqn:Hd.
    + injection H as <-. right. split; [reflexivity|].
      exists 0. split; [now apply String.eqb_eq|].
      intros j Hj. assert (j = 0) as -> by lia. exact Hs.
    + apply IH in H as [(k & E & Hk)|(E & k & Hroot & Hno)].
      * left. exists (S k).
        rewrite <- (up_shift filepath_Dir k dir). now split.
      * right. split; [exact E|]. exists (S k).
        rewrite <- !(up_shift filepath_Dir). split; [exact Hroot|].
        intros j Hj. destruct j as [|j]; [exact Hs|].
        rewrite <- (up_shift filepath_Dir j dir). apply Hno. lia.
Qed.

(** X16.  Whatever filesystem [GetRootGitDir] returns is rooted either at
    the absolute working directory or one of its ancestors, and then that
    directory holds a .git entry, or at the working directory as given,
    and then the walk reached the root without meeting a .git entry.  It
    never returns another directory. *)
Theorem GetRootGitDir_returns_git_dir_or_workingDir :
  forall (os_Stat : string -> bool) (filepath_Join : list string -> string)
         (filepath_Dir : string -> string) (osfs_New : string -> Filesystem)
         (iFactory : IgnoreFactory) (fuel : nat) (workingDir : string)
         (filesystem : Filesystem),
    GetRootGitDir os_Stat filepath_Join filepath_Dir osfs_New iFactory fuel
                  workingDir = Some (inl filesystem) ->
    exists dir,
      filepathAbs iFactory workingDir = inl dir
      /\ ((exists k,
             filesystem = osfs_New (Nat.iter k filepath_Dir dir)
             /\ os_Stat (filepath_Join [Nat.iter k filepath_Dir dir; ".git"])
                = true)
          \/ (filesystem = osfs_New workingDir
              /\ exists k,
                   filepath_Dir (Nat.iter k filepath_Dir dir)
                   = Nat.iter k filepath_Dir dir
                   /\ forall j, j <= k ->
                        os_Stat (filepath_Join
                                   [Nat.iter j filepath_Dir dir; ".git"])
                        = false)).
Proof.
  intros os_Stat filepath_Join filepath_Dir osfs_New iFactory fuel workingDir
         filesystem H.
  unfold GetRootGitDir in H.
  destruct (filepathAbs iFactory workingDir) as [dir|e]; [|discriminate].
  exists dir. split; [reflexivity|].
  destruct (climb _ _ _ _ fuel workingDir dir) as [f|] eqn:E; [|discriminate].
  injection H as <-.
  exact (climb_result os_Stat filepath_Join filepath_Dir osfs_New workingDir
           fuel dir f E).
Qed.

Lemma GetRootGitDir_returns_git_dir_or_workingDir_witness :
  GetRootGitDir gitAtHomeU (String.concat "/") parentOf rootedAt resolving
                5 "proj"
  = Some (inl (rootedAt "/home/u"))
  /\ exists dir,
       filepathAbs resolving "proj" = inl dir
       /\ ((exists k,
              rootedAt "/home/u" = rootedAt (Nat.iter k parentOf dir)
              /\ gitAtHomeU (String.concat "/" [Nat.iter k parentOf dir; ".git"])
                 = true)
           \/ (rootedAt "/home/u" = rootedAt "proj"
               /\ exists k,
                    parentOf (Nat.iter k parentOf dir) = Nat.iter k parentOf dir
                    /\ forall j, j <= k ->
                         gitAtHomeU (String.concat "/"
                                       [Nat.iter j parentOf dir; ".git"])
                         = false)).
Proof.
  split; [reflexivity|].
  exact (GetRootGitDir_returns_git_dir_or_workingDir gitAtHomeU
           (String.concat "/") parentOf rootedAt resolving 5 "proj"
           (rootedAt "/home/u") eq_refl).
Defined.

End RootInvariant.

(** ** The log of a collection without error *)

Section LogExtras.
Import strings gitignore ignore vocabulary samples.

Lemma ignoreFilesLoop_quiet (TrimSpace : string -> string) (fs : Filesystem)
      (path : list string) :
  forall (filenames : list string) (ps ps' : list Pattern)
         (l : list LogEvent),
    ignoreFilesLoop TrimSpace fs path filenames ps = Some ((ps', None), l) ->
    Forall (fun ev => level ev = DebugLevel /\ errField ev = None) l.
Proof.
  induction filenames as [|filename rest IH]; intros ps ps' l.
  - simpl. intros [= _ <-]. constructor.
  - rewrite ignoreFilesLoop_step.
    destruct (Open fs (Join fs (path ++ [filename]))) as [f|e].
    + apply IH.
    + destruct (IsNotExist e); [|discriminate].
      intros H. apply bind_Some in H as (u & l1 & l2 & H1 & H2 & ->).
      unfold emit in H1. injection H1 as _ <-. apply IH in H2.
      constructor; [split; reflexivity | exact H2].
Qed.

Lemma subdirsLoop_quiet
      (recur : list string -> M (list Pattern * option error))
      (path : list string) :
  (forall p ps l, recur p = Some ((ps, None), l) ->
                  Forall (fun ev => level ev = DebugLevel
                                    /\ errField ev = None) l) ->
  forall (fis : list FileInfo) (ps ps' : list Pattern) (l : list LogEvent),
    subdirsLoop recur path fis ps = Some ((ps', None), l) ->
    Forall (fun ev => level ev = DebugLevel /\ errField ev = None) l.
Proof.
  intros Hrec. induction fis as [|fi rest IH]; intros ps ps' l.
  - simpl. intros [= _ <-]. constructor.
  - rewrite subdirsLoop_step. destruct (walkable fi); [|apply IH].
    destruct (recur (path ++ [Name fi])) as [[[subps [e|]] l0]|] eqn:E;
      try discriminate.
    intros H. apply bind_Some in H as (u & l1 & l2 & H1 & H2 & ->).
    injection H1 as _ <-. apply Forall_app. split.
    + exact (Hrec _ _ _ E).
    + exact (IH _ _ _ H2).
Qed.

Lemma ignoreFilesLoop_messages (TrimSpace : string -> string)
      (fs : Filesystem) (path : list string) :
  forall (filenames : list string) (ps : list Pattern)
         (r : list Pattern * option error) (l : list LogEvent),
    ignoreFilesLoop TrimSpace fs path filenames ps = Some (r, l) ->
    Forall (fun ev => message ev = "skipping ignorefile") l.
Proof.
  induction filenames as [|filename rest IH]; intros ps r l.
  - simpl. intros [= _ <-]. constructor.
  - rewrite ignoreFilesLoop_step.
    destruct (Open fs (Join fs (path ++ [filename]))) as [f|e].
    + apply IH.
    + destruct (IsNotExist e).
      * intros H. apply bind_Some in H as (u & l1 & l2 & H1 & H2 & ->).
        unfold emit in H1. injection H1 as _ <-. apply IH in H2.
        constructor; [reflexivity | exact H2].
      * intros [= _ <-]. repeat constructor.
Qed.

Lemma subdirsLoop_messages
      (recur : list string -> M (list Pattern * option error))
      (path : list string) :
  (forall p r l, recur p = Some (r, l) ->
                 Forall (fun ev => message ev = "skipping ignorefile") l) ->
  forall (fis : list FileInfo) (ps : list Pattern)
         (r : list Pattern * option error) (l : list LogEvent),
    subdirsLoop recur path fis ps = Some (r, l) ->
    Forall (fun ev => message ev = "skipping ignorefile") l.
Proof.
  intros Hrec. induction fis as [|fi rest IH]; intros ps r l.
  - simpl. intros [= _ <-]. constructor.
  - rewrite subdirsLoop_step. destruct (walkable fi); [|apply IH].
    destruct (recur (path ++ [Name fi])) as [[[subps [e|]] l0]|] eqn:E;
      [ | |discriminate].
    + intros [= _ <-]. exact (Hrec _ _ _ E).
    + intros H. apply bind_Some in H as (u & l1 & l2 & H1 & H2 & ->).
      injection H1 as _ <-. apply Forall_app. split.
      * exact (Hrec _ _ _ E).
      * exact (IH _ _ _ H2).
Qed.

(** X17.  When [readPatterns] returns without error, nothing was logged
    above debug level and no logged event carries an error: every event
    reports a missing ignore file. *)
Theorem readPatterns_success_logs_only_debug :
  forall (TrimSpace : string -> string) (fs : Filesystem) (fuel : nat)
         (path : list string) (ps : list Pattern) (l : list LogEvent),
    readPatterns TrimSpace fs fuel path = Some ((ps, None), l) ->
    Forall (fun ev => level ev = DebugLevel /\ errField ev = None
                      /\ message ev = "skipping ignorefile") l.
Proof.
  intros TrimSpace fs.
  assert (Hmsg : forall fuel path r l,
             readPatterns TrimSpace fs fuel path = Some (r, l) ->
             Forall (fun ev => message ev = "skipping ignorefile") l).
  { induction fuel as [|k IH]; intros path r l H; [discriminate|].
    rewrite readPatterns_step in H.
    apply bind_Some in H as ([ps0 e0] & l1 & l2 & H1 & H2 & ->).
    apply Forall_app. split.
    - exact (ignoreFilesLoop_messages TrimSpace fs path _ _ _ _ H1).
    - destruct e0 as [e|]; [injection H2 as _ <-; constructor|].
      destruct (ReadDir fs (Join fs path)) as [fis|e];
        [|injection H2 as _ <-; constructor].
      exact (subdirsLoop_messages (readPatterns TrimSpace fs k) path
               (fun p r' l' => IH p r' l') fis _ _ _ H2). }
  assert (Hq : forall fuel path ps l,
             readPatterns TrimSpace fs fuel path = Some ((ps, None), l) ->
             Forall (fun ev => level ev = DebugLevel /\ errField ev = None) l).
  { induction fuel as [|k IH]; intros path ps l H; [discriminate|].
    rewrite readPatterns_step in H.
    apply bind_Some in H as ([ps0 e0] & l1 & l2 & H1 & H2 & ->).
    destruct e0 as [e|]; [discriminate|].
    destruct (ReadDir fs (Join fs path)) as [fis|e]; [|discriminate].
    apply Forall_app. split.
    - exact (ignoreFilesLoop_quiet TrimSpace fs path _ _ _ _ H1).
    - exact (subdirsLoop_quiet (readPatterns TrimSpace fs k) path
               (fun p ps' l' => IH p ps' l') fis _ _ _ H2). }
  intros fuel path ps l H.
  pose proof (Hq fuel path ps l H) as H1.
  pose proof (Hmsg fuel path _ l H) as H2.
  rewrite Forall_forall in *. intros ev Hev.
  destruct (H1 ev Hev). repeat split; auto.
Qed.

Lemma readPatterns_success_logs_only_debug_witness :
  exists l,
    readPatterns trimBlanks projectTree 3 [] = Some ((projectPatterns, None), l)
    /\ List.length l = 13
    /\ Forall (fun ev => level ev = DebugLevel /\ errField ev = None
                         /\ message ev = "skipping ignorefile") l.
Proof.
  assert (H : {l | readPatterns trimBlanks projectTree 3 []
                   = Some ((projectPatterns, None), l)
                   /\ List.length l = 13}).
  { eexists. vm_compute. split; reflexivity. }
  destruct H as [l [Hl Hn]]. exists l. split; [exact Hl|]. split; [exact Hn|].
  exact (readPatterns_success_logs_only_debug trimBlanks projectTree 3 []
           projectPatterns l Hl).
Defined.

End LogExtras.
